(** * Live scoreboard: score updates, action tokens, admission checks

    A shallow embedding of the score service of the live scoreboard
    module (ScoreService, AntiCheatService, CacheManager and the
    Sequelize models Score, ScoreHistory and Action), with the
    properties of its ledger, its single-use action tokens, its
    anti-cheat admission checks and its leaderboard query; and of the
    services around it (AuthService and the [authenticate] middleware,
    the connection registry and the socket events of WebSocketService,
    the cached leaderboard of CacheManager), with the properties of
    sessions, of the registry and of the caches.

    Conventions of the embedding.
    - Scores, increments, counters and instants are integers ([Z]); a
      [Date] is its number of milliseconds ([getTime]), which is also
      what the comparisons [>] and [-] of the source operate on.
    - A call reads the clock several times ([new Date()], [Date.now()]);
      all the reads of one call return the same instant [now].
    - The random identifier and secret of a new action are inputs of
      the call that draws them.
    - The relational database is a record of tables, a transaction is a
      working copy of it that [commit] installs and [rollback] drops.
    - A statement against the database may raise (a store conflict),
      and so may, after the commit of [updateScore], the update of the
      leaderboard service and the publication of the event; which of
      them does, if any, is an input of the call. The Redis client and
      the reads of the leaderboard service always answer.
    - The first part embeds the calls as they run from their first
      statement to their return; calls that overlap are followed
      [await] by [await] in the module [Interleaving].
    - The token library ([jwt.sign], [jwt.verify]), [bcrypt.compare]
      and the two secrets of the authentication service are parameters
      of the embedding; the session id a login draws is an input of the
      call. The Redis keys of one family ([session:], [user_score:],
      [leaderboard:top10], ...) are a keyspace of their own, keyed by
      what follows the prefix. *)

From Stdlib Require Import ZArith String List Bool Lia DecimalString Permutation Sorted.
From stdpp Require Import gmap strings list fin_maps sorting.

Open Scope string_scope.
Open Scope list_scope.
Open Scope Z_scope.

(** ** Sequelize models *)

Module Score.
(** [username] is the name of the associated user, read as
    [currentScore.user.username] by the score service. *)
Record t := mk {
  id : string;
  userId : string;
  currentScore : Z;
  totalActions : Z;
  lastUpdated : Z;
  username : string
}.

#[global] Instance eq_dec : EqDecision t.
Proof. solve_decision. Defined.
End Score.

(** The [metadata] object of a score update request. *)
Record Metadata := mkMetadata {
  actionType : string;
  duration : Z;
  checksum : string
}.

Module ScoreHistory.
Record t := mk {
  userId : string;
  actionId : string;
  scoreChange : Z;
  previousScore : Z;
  newScore : Z;
  timestamp : Z;
  metadata : Metadata
}.
End ScoreHistory.

Inductive ActionStatus := pending | completed | failed.

#[global] Instance ActionStatus_eq_dec : EqDecision ActionStatus.
Proof. solve_decision. Defined.

Module Action.
Record t := mk {
  id : string;
  userId : string;
  actionType : string;
  status : ActionStatus;
  token : string;
  createdAt : Z;
  expiresAt : Z;
  completedAt : option Z
}.
End Action.

(** The tables. [Actions] is keyed by its primary key [id]; [Scores] by
    [userId], which the model declares unique and which is the only
    column the service looks a score up by; [ScoreHistories] is the
    append-only list of rows, oldest first. *)
Record Database := mkDatabase {
  Actions : gmap string Action.t;
  Scores : gmap string Score.t;
  ScoreHistories : list ScoreHistory.t
}.

(** ** Requests and results of the score service *)

Record ScoreUpdateRequest := mkRequest {
  userId : string;
  actionId : string;
  scoreIncrement : Z;
  timestamp : Z;
  metadata : Metadata
}.

(** The calls of the score service that may raise. [CreateAction] is
    the insert of [generateActionToken]; the others are those of
    [updateScore], in program order: its statements against the
    database up to the commit of the transaction and, after the
    commit, the update of the leaderboard service and the publication
    of the event. A call of the service executes each of them at most
    once. *)
Inductive Statement :=
| CreateAction
| FindAction | FindScore | UpdateScoreRow | CreateHistory | UpdateAction | Commit
| UpdateUserScore | Publish.

#[global] Instance Statement_eq_dec : EqDecision Statement.
Proof. solve_decision. Defined.

(** What a call throws: an [Error] with its message, built by the
    service or by Sequelize, or the failure raised by the store, the
    leaderboard service or the publisher on a call of the service. *)
Inductive Thrown :=
| Error (message : string)
| StoreConflict (statement : Statement).

#[global] Instance Thrown_eq_dec : EqDecision Thrown.
Proof. solve_decision. Defined.

Inductive Result (A : Type) :=
| Ok (a : A)
| Err (e : Thrown).
Arguments Ok {A} a.
Arguments Err {A} e.

(** [faulty fault s]: the one execution of [s] by the call raises.
    [fault] tells how the store and the collaborators conduct
    themselves during one call; executed again, a statement need not
    raise again. *)
Definition faulty (fault : option Statement) (s : Statement) : bool :=
  bool_decide (fault = Some s).

(** ** The Redis client

    A keyspace maps a key to its value and its deadline, if it has one.
    The service uses four families of keys, [last_action:<userId>],
    [action_count:<userId>], [user_score:<userId>] and
    [suspicious:<userId>]; their prefixes differ, so each family is a
    keyspace of its own, keyed by the user id. *)

Module Redis.
Section keyspace.
Context {A : Type}.

Definition alive (now : Z) (deadline : option Z) : bool :=
  match deadline with
  | None => true
  | Some t => now <? t
  end.

Definition get (m : gmap string (A * option Z)) (key : string) (now : Z) : option A :=
  match m !! key with
  | Some (v, d) => if alive now d then Some v else None
  | None => None
  end.

Definition setex (m : gmap string (A * option Z)) (key : string) (seconds : Z) (v : A) (now : Z)
  : gmap string (A * option Z) :=
  <[key := (v, Some (now + seconds * 1000))]> m.

Definition expire (m : gmap string (A * option Z)) (key : string) (seconds : Z) (now : Z)
  : gmap string (A * option Z) :=
  match m !! key with
  | Some (v, d) => if alive now d then <[key := (v, Some (now + seconds * 1000))]> m else m
  | None => m
  end.
End keyspace.

(** [INCR]: a missing (or lapsed) key counts from zero and gets no
    deadline; a live key keeps its deadline. *)
Definition incr (m : gmap string (Z * option Z)) (key : string) (now : Z)
  : gmap string (Z * option Z) :=
  match m !! key with
  | Some (v, d) => if alive now d then <[key := (v + 1, d)]> m else <[key := (1, None)]> m
  | None => <[key := (1, None)]> m
  end.
End Redis.

(** The note left by [flagSuspiciousActivity]. *)
Record SuspiciousNote := mkNote {
  note_timestamp : Z;
  note_request : ScoreUpdateRequest;
  note_reason : string
}.

Record Cache := mkCache {
  last_action : gmap string (Z * option Z);
  action_count : gmap string (Z * option Z);
  user_score : gmap string (Z * option Z);
  suspicious : gmap string (SuspiciousNote * option Z)
}.

(** ** Collaborators that are not part of the sources *)

(** [crypto.createHash('sha256')...digest('hex')] and the environment
    variable [CHECKSUM_SECRET]. *)
Class Platform := {
  sha256_hex : string → string;
  CHECKSUM_SECRET : string
}.

(** The leaderboard service: the two calls the score service makes, over
    its own state [Board], answering ranks of type [Rank]. *)
Class LeaderboardService (Board Rank : Type) := {
  getUserRank : Board → string → Rank;
  updateUserScore : Board → string → Z → Board * Rank
}.

(** The decimal text of an integer, as a template literal prints it. *)
Definition toString (n : Z) : string := NilZero.string_of_int (Z.to_int n).

(** ** Anti-cheat service *)

Module ValidationRequest.
Record t := mk {
  userId : string;
  scoreIncrement : Z;
  actionType : string;
  timestamp : Z;
  checksum : string
}.
End ValidationRequest.

Module AntiCheatService.

Record SuspiciousPatterns := mkPatterns {
  rapidFireThreshold : Z;
  scoreVelocityLimit : Z
}.

Record Config := mkConfig {
  maxScorePerAction : Z;
  minTimeBetweenActions : Z;
  maxActionsPerHour : Z;
  suspiciousPatterns : SuspiciousPatterns
}.

Definition config : Config := {|
  maxScorePerAction := 100;
  minTimeBetweenActions := 1000;
  maxActionsPerHour := 100;
  suspiciousPatterns := {| rapidFireThreshold := 10; scoreVelocityLimit := 1000 |}
|}.

Definition validateChecksum `{Platform} (request : ValidationRequest.t) : bool :=
  let expectedChecksum :=
    sha256_hex (ValidationRequest.userId request ++ ":"
                ++ ValidationRequest.actionType request ++ ":"
                ++ toString (ValidationRequest.scoreIncrement request) ++ ":"
                ++ CHECKSUM_SECRET)%string in
  bool_decide (ValidationRequest.checksum request = expectedChecksum).

Definition getLastActionTime (cache : Cache) (userId : string) (now : Z) : option Z :=
  Redis.get (last_action cache) userId now.

(** The window is a parameter the source does not use. *)
Definition getActionCount (cache : Cache) (userId : string) (windowSeconds : Z) (now : Z) : Z :=
  match Redis.get (action_count cache) userId now with
  | Some count => count
  | None => 0
  end.

(** The rows of a user not older than the window; of the result the
    caller reads the length only, its order is left as stored. *)
Definition getRecentActions (history : list ScoreHistory.t) (userId : string)
    (windowSeconds : Z) (now : Z) : list ScoreHistory.t :=
  let since := now - windowSeconds * 1000 in
  List.filter
    (fun h => bool_decide (ScoreHistory.userId h = userId) && (since <=? ScoreHistory.timestamp h))
    history.

Definition calculateScoreVelocity (history : list ScoreHistory.t) (userId : string)
    (windowSeconds : Z) (now : Z) : Z :=
  let since := now - windowSeconds * 1000 in
  foldr Z.add 0
    (List.map ScoreHistory.scoreChange
       (List.filter
          (fun h => bool_decide (ScoreHistory.userId h = userId) && (since <=? ScoreHistory.timestamp h))
          history)).

(** The accesses of the service to Redis and to the database, one for
    each call it awaits: [redisClient.get] of the last action and of
    the action count, [ScoreHistory.findAll], [ScoreHistory.sum],
    [redisClient.setex], [redisClient.incr] and [redisClient.expire].
    A method answers with its result and the accesses it made, in
    program order. *)
Inductive Access :=
| GetLastAction | GetActionCount | FindRecentActions | SumScoreChange
| SetLastAction | IncrActionCount | ExpireActionCount.

Definition detectSuspiciousPatterns (history : list ScoreHistory.t)
    (request : ValidationRequest.t) (now : Z) : bool * list Access :=
  let recentActions := getRecentActions history (ValidationRequest.userId request) 60 now in
  if Z.of_nat (length recentActions) >? rapidFireThreshold (suspiciousPatterns config)
  then (true, [FindRecentActions])
  else
    let scoreVelocity := calculateScoreVelocity history (ValidationRequest.userId request) 3600 now in
    (scoreVelocity >? scoreVelocityLimit (suspiciousPatterns config),
     [FindRecentActions; SumScoreChange]).

Definition recordAction (cache : Cache) (request : ValidationRequest.t) (now : Z) : Cache :=
  let key := ValidationRequest.userId request in
  let last := Redis.setex (last_action cache) key 3600 (ValidationRequest.timestamp request) now in
  let count := Redis.expire (Redis.incr (action_count cache) key now) key 3600 now in
  {| last_action := last;
     action_count := count;
     user_score := user_score cache;
     suspicious := suspicious cache |}.

(** The decision, the cache it leaves and the accesses it made. *)
Definition validateScoreUpdate `{Platform} (history : list ScoreHistory.t) (cache : Cache)
    (request : ValidationRequest.t) (now : Z) : bool * Cache * list Access :=
  if negb (validateChecksum request) then (false, cache, [])
  else if ValidationRequest.scoreIncrement request >? maxScorePerAction config
  then (false, cache, [])
  else
    let lastActionTime := getLastActionTime cache (ValidationRequest.userId request) now in
    if match lastActionTime with
       | Some last =>
           let timeDiff := ValidationRequest.timestamp request - last in
           timeDiff <? minTimeBetweenActions config
       | None => false
       end
    then (false, cache, [GetLastAction])
    else
      let actionCount := getActionCount cache (ValidationRequest.userId request) 3600 now in
      if actionCount >=? maxActionsPerHour config
      then (false, cache, [GetLastAction; GetActionCount])
      else
        let '(isSuspicious, reads) := detectSuspiciousPatterns history request now in
        if isSuspicious then (false, cache, [GetLastAction; GetActionCount] ++ reads)
        else
          (true, recordAction cache request now,
           [GetLastAction; GetActionCount] ++ reads
             ++ [SetLastAction; IncrActionCount; ExpireActionCount]).

End AntiCheatService.

(** ** Score service *)

(** The monad of the statements of a transaction: the first failure
    ends the run. *)
#[global] Instance Result_ret : MRet Result := fun _ a => Ok a.
#[global] Instance Result_bind : MBind Result := fun _ _ k r =>
  match r with
  | Ok a => k a
  | Err e => Err e
  end.

(** A statement against the store: it raises when the store conflicts
    on it, and yields its outcome otherwise. *)
Definition statement {A : Type} (fault : option Statement) (s : Statement) (outcome : A) : Result A :=
  if faulty fault s then Err (StoreConflict s) else Ok outcome.

Module ScoreService.

(** The payload published on [score.updated]. *)
Record ScoreUpdated (Rank : Type) := mkScoreUpdated {
  ev_userId : string;
  ev_username : string;
  oldScore : Z;
  ev_newScore : Z;
  oldRank : Rank;
  newRank : Rank;
  ev_timestamp : Z
}.
Arguments mkScoreUpdated {Rank}.
Arguments ev_userId {Rank}.
Arguments ev_username {Rank}.
Arguments oldScore {Rank}.
Arguments ev_newScore {Rank}.
Arguments oldRank {Rank}.
Arguments newRank {Rank}.
Arguments ev_timestamp {Rank}.

(** What [updateScore] returns. *)
Record UpdateResult (Rank : Type) := mkUpdateResult {
  success : bool;
  newScore : Z;
  rank : Rank;
  previousRank : Rank
}.
Arguments mkUpdateResult {Rank}.
Arguments success {Rank}.
Arguments newScore {Rank}.
Arguments rank {Rank}.
Arguments previousRank {Rank}.

(** What [generateActionToken] returns. *)
Record IssuedToken := mkIssuedToken {
  it_actionId : string;
  it_token : string;
  it_expiresAt : Z
}.

(** Everything the service acts on: the database, the Redis cache,
    the leaderboard service's state and the queue of the publisher. *)
Record World (Board Rank : Type) := mkWorld {
  db : Database;
  redis : Cache;
  board : Board;
  queue : list (string * ScoreUpdated Rank)
}.
Arguments mkWorld {Board Rank}.
Arguments db {Board Rank}.
Arguments redis {Board Rank}.
Arguments board {Board Rank}.
Arguments queue {Board Rank}.

Section service.
Context `{Platform} {Board Rank : Type} `{LeaderboardService Board Rank}.

(** [Action.findOne({ where: { id, userId, token, status: 'pending' } })] *)
Definition findPendingAction (tx : Database) (actionId userId token : string) : option Action.t :=
  match Actions tx !! actionId with
  | Some action =>
      if bool_decide (Action.userId action = userId)
         && bool_decide (Action.token action = token)
         && bool_decide (Action.status action = pending)
      then Some action else None
  | None => None
  end.

Definition validateActionToken (fault : option Statement) (tx : Database)
    (token actionId userId : string) (now : Z) : Result Action.t :=
  action ← statement fault FindAction (findPendingAction tx actionId userId token);
  match action with
  | Some action =>
      if now >? Action.expiresAt action
      then Err (Error "Invalid or expired action token")
      else Ok action
  | None => Err (Error "Invalid or expired action token")
  end.

Definition updateScoreCache (cache : Cache) (userId : string) (score : Z) (now : Z) : Cache :=
  {| last_action := last_action cache;
     action_count := action_count cache;
     user_score := Redis.setex (user_score cache) userId 300 score now;
     suspicious := suspicious cache |}.

Definition publishScoreUpdate (queue : list (string * ScoreUpdated Rank))
    (data : ScoreUpdated Rank) : list (string * ScoreUpdated Rank) :=
  queue ++ [("score.updated", data)].

Definition flagSuspiciousActivity (cache : Cache) (userId : string)
    (request : ScoreUpdateRequest) (now : Z) : Cache :=
  {| last_action := last_action cache;
     action_count := action_count cache;
     user_score := user_score cache;
     suspicious :=
       Redis.setex (suspicious cache) userId 86400
         {| note_timestamp := now;
            note_request := request;
            note_reason := "Failed anti-cheat validation" |} now |}.

(** The statements of [updateScore] from the locked read of the
    score row to the commit, on the working copy [tx] of the
    database. Yields the database as committed, the row read, the
    previous rank and the new score. *)
Definition mutate (fault : option Statement) (tx : Database) (leaderboard : Board)
    (request : ScoreUpdateRequest) (action : Action.t) (now : Z)
  : Result (Database * Score.t * Rank * Z) :=
  found ← statement fault FindScore (Scores tx !! userId request);
  match found with
  | None => Err (Error "User score not found")
  | Some currentScore =>
      let previousScore := Score.currentScore currentScore in
      let previousRank := getUserRank leaderboard (userId request) in
      let newScore := previousScore + scoreIncrement request in
      tx ← statement fault UpdateScoreRow
             {| Actions := Actions tx;
                Scores :=
                  <[userId request :=
                      {| Score.id := Score.id currentScore;
                         Score.userId := Score.userId currentScore;
                         Score.currentScore := newScore;
                         Score.totalActions := Score.totalActions currentScore + 1;
                         Score.lastUpdated := now;
                         Score.username := Score.username currentScore |}]> (Scores tx);
                ScoreHistories := ScoreHistories tx |};
      tx ← statement fault CreateHistory
             {| Actions := Actions tx;
                Scores := Scores tx;
                ScoreHistories :=
                  ScoreHistories tx ++
                    [ {| ScoreHistory.userId := userId request;
                         ScoreHistory.actionId := actionId request;
                         ScoreHistory.scoreChange := scoreIncrement request;
                         ScoreHistory.previousScore := previousScore;
                         ScoreHistory.newScore := newScore;
                         ScoreHistory.timestamp := timestamp request;
                         ScoreHistory.metadata := metadata request |} ] |};
      tx ← statement fault UpdateAction
             {| Actions :=
                  <[Action.id action :=
                      {| Action.id := Action.id action;
                         Action.userId := Action.userId action;
                         Action.actionType := Action.actionType action;
                         Action.status := completed;
                         Action.token := Action.token action;
                         Action.createdAt := Action.createdAt action;
                         Action.expiresAt := Action.expiresAt action;
                         Action.completedAt := Some now |}]> (Actions tx);
                Scores := Scores tx;
                ScoreHistories := ScoreHistories tx |};
      committed ← statement fault Commit tx;
      Ok (committed, currentScore, previousRank, newScore)
  end.

(** The error of [transaction.rollback()] on a transaction that
    [transaction.commit()] has finished: Sequelize marks a transaction
    finished when [commit()] ends, whether the commit went through or
    raised, and refuses to roll it back. *)
Definition rollbackFinished : Thrown :=
  Error "Transaction cannot be rolled back because it has been finished with state: commit".

(** The catch block, [await transaction.rollback(); throw error]: the
    error the call ends in. On a transaction that is not finished the
    rollback goes through and the error caught is rethrown; on a
    finished one the rollback raises, and its error is the one
    thrown. *)
Definition catch (finished : bool) (error : Thrown) : Thrown :=
  if finished then rollbackFinished else error.

(** [updateScore]: the try block runs on the transaction. When an
    error is thrown before the commit is reached, the catch block
    rolls the transaction back, which leaves the database of [w], and
    rethrows it. When the commit itself raises, the transaction is
    aborted by the store and finished for Sequelize: the database is
    that of [w] and the call ends in the error of the rollback. After
    the commit the database is the committed one whatever follows:
    the score cache is written, then the leaderboard service and the
    publisher are called, and when one of them raises the catch block
    runs on the finished transaction. A collaborator that raises has
    done nothing. What the anti-cheat service wrote to Redis stays in
    every case. *)
Definition updateScore (fault : option Statement) (w : World Board Rank)
    (request : ScoreUpdateRequest) (actionToken : string) (now : Z)
  : Result (UpdateResult Rank) * World Board Rank :=
  let transaction := db w in
  match validateActionToken fault transaction actionToken (actionId request) (userId request) now with
  | Err error => (Err (catch false error), w)
  | Ok action =>
      let '(isValid, cache, _) :=
        AntiCheatService.validateScoreUpdate (ScoreHistories (db w)) (redis w)
          {| ValidationRequest.userId := userId request;
             ValidationRequest.scoreIncrement := scoreIncrement request;
             ValidationRequest.actionType := actionType (metadata request);
             ValidationRequest.timestamp := timestamp request;
             ValidationRequest.checksum := checksum (metadata request) |} now in
      if negb isValid then
        (Err (catch false (Error "Score update failed validation")),
         {| db := db w;
            redis := flagSuspiciousActivity cache (userId request) request now;
            board := board w;
            queue := queue w |})
      else
        match mutate fault transaction (board w) request action now with
        | Err error =>
            (Err (catch (bool_decide (error = StoreConflict Commit)) error),
             {| db := db w; redis := cache; board := board w; queue := queue w |})
        | Ok (committed, currentScore, previousRank, newScore) =>
            let cache := updateScoreCache cache (userId request) newScore now in
            match statement fault UpdateUserScore
                    (updateUserScore (board w) (userId request) newScore) with
            | Err error =>
                (Err (catch true error),
                 {| db := committed; redis := cache; board := board w; queue := queue w |})
            | Ok (leaderboard, newRank) =>
                match statement fault Publish
                        (publishScoreUpdate (queue w)
                           {| ev_userId := userId request;
                              ev_username := Score.username currentScore;
                              oldScore := Score.currentScore currentScore;
                              ev_newScore := newScore;
                              oldRank := previousRank;
                              newRank := newRank;
                              ev_timestamp := now |}) with
                | Err error =>
                    (Err (catch true error),
                     {| db := committed; redis := cache; board := leaderboard; queue := queue w |})
                | Ok published =>
                    (Ok {| success := true; newScore := newScore;
                           rank := newRank; previousRank := previousRank |},
                     {| db := committed; redis := cache; board := leaderboard;
                        queue := published |})
                end
            end
        end
  end.

(** [generateActionToken]: [actionId] and [token] are the outcomes of
    [crypto.randomUUID()] and [crypto.randomBytes(32)]. The insert
    raises when the primary key is taken. *)
Definition generateActionToken (fault : option Statement) (w : World Board Rank)
    (userId actionType : string) (actionId token : string) (now : Z)
  : Result IssuedToken * World Board Rank :=
  let expiresAt := now + 300000 in
  if faulty fault CreateAction || bool_decide (is_Some (Actions (db w) !! actionId))
  then (Err (StoreConflict CreateAction), w)
  else
    (Ok {| it_actionId := actionId; it_token := token; it_expiresAt := expiresAt |},
     {| db :=
          {| Actions :=
               <[actionId :=
                   {| Action.id := actionId;
                      Action.userId := userId;
                      Action.actionType := actionType;
                      Action.status := pending;
                      Action.token := token;
                      Action.createdAt := now;
                      Action.expiresAt := expiresAt;
                      Action.completedAt := None |}]> (Actions (db w));
             Scores := Scores (db w);
             ScoreHistories := ScoreHistories (db w) |};
        redis := redis w;
        board := board w;
        queue := queue w |}).

End service.
End ScoreService.

(** ** Cache manager: the leaderboard query *)

Module CacheManager.

(** [order: [['currentScore', 'DESC']]]: no score is followed by a
    larger one. The query names no other column, so nothing is said of
    rows that tie. *)
Definition byScoreDesc (a b : Score.t) : Prop :=
  Score.currentScore b ≤ Score.currentScore a.

(** The rows of the [Scores] table. *)
Definition scoreRows (database : Database) : list Score.t :=
  (map_to_list (Scores database)).*2.

(** [calculateLeaderboard database result]: [result] is an answer of
    [Score.findAll({ order: [['currentScore', 'DESC']], limit: 10 })],
    the first ten rows of the table put in some order that is
    descending in the score. *)
Definition calculateLeaderboard (database : Database) (result : list Score.t) : Prop :=
  ∃ rows, rows ≡ₚ scoreRows database
          ∧ StronglySorted byScoreDesc rows
          ∧ result = take 10 rows.

(** The tie-break of the specification: of two listed rows with the
    same score, the one whose user id is the smaller comes first. *)
Definition tiesByUserId (result : list Score.t) : Prop :=
  ∀ i j a b,
    result !! i = Some a → result !! j = Some b →
    Score.currentScore a = Score.currentScore b →
    String.ltb (Score.userId a) (Score.userId b) = true →
    (i < j)%nat.

#[global] Instance byScoreDesc_dec : RelDecision byScoreDesc.
Proof. intros a b. unfold byScoreDesc. apply _. Defined.

(** One way the store may answer: a stable sort of the rows as the
    table holds them. *)
Definition findAllByScoreDesc (database : Database) : list Score.t :=
  take 10 (merge_sort byScoreDesc (scoreRows database)).

End CacheManager.

(** ** The admission decision as the specification words it

    Five checks in a fixed order, the first that fails naming the
    reason of the rejection. Each check passes exactly when
    [validateScoreUpdate] does not return at it. *)

Module AdmissionSpec.

Inductive RejectReason :=
| ProofInvalid | MagnitudeExceeded | TooFrequent | VolumeExceeded | PatternSuspicious.

Inductive Decision :=
| Accept
| Reject (reason : RejectReason).

Section checks.
Context `{Platform}.
Import AntiCheatService.

Definition proofCheck (request : ValidationRequest.t) : bool :=
  validateChecksum request.

Definition magnitudeBound (request : ValidationRequest.t) : bool :=
  ValidationRequest.scoreIncrement request <=? maxScorePerAction config.

Definition minimumSpacing (cache : Cache) (request : ValidationRequest.t) (now : Z) : bool :=
  match getLastActionTime cache (ValidationRequest.userId request) now with
  | Some last => minTimeBetweenActions config <=? ValidationRequest.timestamp request - last
  | None => true
  end.

Definition hourlyVolume (cache : Cache) (request : ValidationRequest.t) (now : Z) : bool :=
  getActionCount cache (ValidationRequest.userId request) 3600 now <? maxActionsPerHour config.

Definition patternCheck (history : list ScoreHistory.t) (request : ValidationRequest.t) (now : Z) : bool :=
  negb (detectSuspiciousPatterns history request now).1.

Definition decision (history : list ScoreHistory.t) (cache : Cache)
    (request : ValidationRequest.t) (now : Z) : Decision :=
  if negb (proofCheck request) then Reject ProofInvalid
  else if negb (magnitudeBound request) then Reject MagnitudeExceeded
  else if negb (minimumSpacing cache request now) then Reject TooFrequent
  else if negb (hourlyVolume cache request now) then Reject VolumeExceeded
  else if negb (patternCheck history request now) then Reject PatternSuspicious
  else Accept.
End checks.

End AdmissionSpec.

(** ** The retry of the atomic unit as the specification words it *)

Module RetrySpec.
Section unit.
Context `{Platform} {Board Rank : Type} `{LeaderboardService Board Rank}.

(** The atomic unit with the retries of the specification: when an
    execution of the unit ends in a store conflict, the unit is
    executed again from its read step with the same inputs, at most
    [retries] times more, and a conflict of the last execution allowed
    is surfaced as [MutationFailed]. [faults] is the conduct of the
    store at the successive executions, that of the first at its
    head; past the end of the list the store raises nothing. *)
Fixpoint mutate (retries : nat) (faults : list (option Statement)) (tx : Database)
    (leaderboard : Board) (request : ScoreUpdateRequest) (action : Action.t) (now : Z)
  : Result (Database * Score.t * Rank * Z) :=
  match ScoreService.mutate (match faults with fault :: _ => fault | [] => None end)
          tx leaderboard request action now with
  | Err (StoreConflict _) =>
      match retries with
      | O => Err (Error "MutationFailed")
      | S retries => mutate retries (tail faults) tx leaderboard request action now
      end
  | outcome => outcome
  end.

End unit.
End RetrySpec.

(** ** Sequences of calls and the ledger *)

Module Ledger.
Import ScoreService.

(** A call of the service with everything it reads from outside: the
    clock, the random identifiers and the conduct of the store and of
    the collaborators. *)
Inductive Call :=
| GenerateActionToken (fault : option Statement) (userId actionType actionId token : string) (now : Z)
| UpdateScore (fault : option Statement) (request : ScoreUpdateRequest) (actionToken : string) (now : Z).

Section runs.
Context `{Platform} {Board Rank : Type} `{LeaderboardService Board Rank}.

(** The world after a call, and the request if it was accepted. *)
Definition perform (w : World Board Rank) (call : Call)
  : World Board Rank * option ScoreUpdateRequest :=
  match call with
  | GenerateActionToken fault userId actionType actionId token now =>
      ((generateActionToken fault w userId actionType actionId token now).2, None)
  | UpdateScore fault request actionToken now =>
      match updateScore fault w request actionToken now with
      | (Ok _, w') => (w', Some request)
      | (Err _, w') => (w', None)
      end
  end.

(** The world after a sequence of calls, and the accepted requests
    in the order of their commits. *)
Fixpoint run (w : World Board Rank) (calls : list Call)
  : World Board Rank * list ScoreUpdateRequest :=
  match calls with
  | [] => (w, [])
  | call :: calls =>
      let '(w, accepted) := perform w call in
      let '(w, rest) := run w calls in
      (w, option_list accepted ++ rest)
  end.
End runs.

(** The sum of the increments of the requests of a user. *)
Definition total (user : string) (requests : list ScoreUpdateRequest) : Z :=
  foldr Z.add 0
    (scoreIncrement <$> List.filter (fun request => bool_decide (userId request = user)) requests).

(** What a history row posts: the user, the action and the change. *)
Definition posting (row : ScoreHistory.t) : string * string * Z :=
  (ScoreHistory.userId row, ScoreHistory.actionId row, ScoreHistory.scoreChange row).

(** What a request asks to post. *)
Definition delta (request : ScoreUpdateRequest) : string * string * Z :=
  (userId request, actionId request, scoreIncrement request).

(** The [Actions] table is keyed by its primary key. *)
Definition keyed (database : Database) : Prop :=
  ∀ key action, Actions database !! key = Some action → Action.id action = key.

(** An action on record that is no longer pending. *)
Definition spent (database : Database) (actionId : string) : Prop :=
  ∃ action, Actions database !! actionId = Some action ∧ Action.status action ≠ pending.

(** The call does not fail after its commit: the leaderboard service
    and the publisher answer it. *)
Definition quiet (call : Call) : Prop :=
  match call with
  | GenerateActionToken _ _ _ _ _ _ => True
  | UpdateScore fault _ _ _ => fault ≠ Some UpdateUserScore ∧ fault ≠ Some Publish
  end.

(** A ledger in order: no two history rows name the same action, and
    the action a row names is spent. *)
Definition ledger_ok (database : Database) : Prop :=
  keyed database
  ∧ NoDup (ScoreHistory.actionId <$> ScoreHistories database)
  ∧ ∀ row, row ∈ ScoreHistories database → spent database (ScoreHistory.actionId row).

End Ledger.

(** ** Calls that overlap

    [updateScore] is asynchronous: between two of its [await]s other
    calls run. A call in flight is followed from one group of
    statements to the next; nothing raises here.
    - The transaction asks for no isolation level, so it has the
      default of the database, read committed: a read returns what is
      committed at that moment, the writes of a transaction show at its
      commit.
    - [Action.findOne] takes no lock. [Score.findOne] takes the row
      lock of the score of the user ([LOCK.UPDATE]) and waits while
      another transaction holds it; the lock is held to the commit.
    - The writes that follow the locked read reach the database at the
      commit, so they are one step with it.
    - The anti-cheat checks, and the calls that follow the commit, are
      one step each: the schedules followed here are schedules of the
      source, which has more of them. *)

Module Interleaving.
Import ScoreService.

(** Where a call stands. *)
Inductive Stage (Rank : Type) :=
| Begun
| TokenValidated (action : Action.t)
| Cleared (action : Action.t)
| RowLocked (action : Action.t) (currentScore : Score.t) (previousRank : Rank)
| Committed (currentScore : Score.t) (previousRank : Rank) (newScore : Z)
| Returned (result : Result (UpdateResult Rank)).
Arguments Begun {Rank}.
Arguments TokenValidated {Rank}.
Arguments Cleared {Rank}.
Arguments RowLocked {Rank}.
Arguments Committed {Rank}.
Arguments Returned {Rank}.

(** A call in flight: its arguments, the instant it reads off the
    clock, and where it stands. *)
Record Session (Rank : Type) := mkSession {
  request : ScoreUpdateRequest;
  actionToken : string;
  now : Z;
  stage : Stage Rank
}.
Arguments mkSession {Rank}.
Arguments request {Rank}.
Arguments actionToken {Rank}.
Arguments now {Rank}.
Arguments stage {Rank}.

Record Config (Board Rank : Type) := mkConfig {
  world : World Board Rank;
  sessions : list (Session Rank)
}.
Arguments mkConfig {Board Rank}.
Arguments world {Board Rank}.
Arguments sessions {Board Rank}.

Section steps.
Context `{Platform} {Board Rank : Type} `{LeaderboardService Board Rank}.

(** A session holds the row lock of the score of its user from the
    locked read to the commit. *)
Definition holdsLock (user : string) (session : Session Rank) : bool :=
  match stage session with
  | RowLocked _ _ _ => bool_decide (userId (request session) = user)
  | _ => false
  end.

Definition locked (user : string) (all : list (Session Rank)) : bool :=
  existsb (holdsLock user) all.

(** The next group of statements of a session, on the world as it is
    and beside the other sessions; [None] when the session waits for
    the row lock or has returned. *)
Definition advance (w : World Board Rank) (all : list (Session Rank)) (session : Session Rank)
  : option (World Board Rank * Stage Rank) :=
  let request := request session in
  let now := now session in
  match stage session with
  | Begun =>
      match validateActionToken None (db w) (actionToken session)
              (actionId request) (userId request) now with
      | Ok action => Some (w, TokenValidated action)
      | Err error => Some (w, Returned (Err error))
      end
  | TokenValidated action =>
      let '(isValid, cache, _) :=
        AntiCheatService.validateScoreUpdate (ScoreHistories (db w)) (redis w)
          {| ValidationRequest.userId := userId request;
             ValidationRequest.scoreIncrement := scoreIncrement request;
             ValidationRequest.actionType := actionType (metadata request);
             ValidationRequest.timestamp := timestamp request;
             ValidationRequest.checksum := checksum (metadata request) |} now in
      if negb isValid then
        Some ({| db := db w;
                 redis := flagSuspiciousActivity cache (userId request) request now;
                 board := board w;
                 queue := queue w |},
              Returned (Err (Error "Score update failed validation")))
      else
        Some ({| db := db w; redis := cache; board := board w; queue := queue w |},
              Cleared action)
  | Cleared action =>
      if locked (userId request) all then None
      else
        match Scores (db w) !! userId request with
        | None => Some (w, Returned (Err (Error "User score not found")))
        | Some currentScore =>
            Some (w, RowLocked action currentScore (getUserRank (board w) (userId request)))
        end
  | RowLocked action currentScore previousRank =>
      let previousScore := Score.currentScore currentScore in
      let newScore := previousScore + scoreIncrement request in
      Some ({| db :=
                 {| Actions :=
                      <[Action.id action :=
                          {| Action.id := Action.id action;
                             Action.userId := Action.userId action;
                             Action.actionType := Action.actionType action;
                             Action.status := completed;
                             Action.token := Action.token action;
                             Action.createdAt := Action.createdAt action;
                             Action.expiresAt := Action.expiresAt action;
                             Action.completedAt := Some now |}]> (Actions (db w));
                    Scores :=
                      <[userId request :=
                          {| Score.id := Score.id currentScore;
                             Score.userId := Score.userId currentScore;
                             Score.currentScore := newScore;
                             Score.totalActions := Score.totalActions currentScore + 1;
                             Score.lastUpdated := now;
                             Score.username := Score.username currentScore |}]> (Scores (db w));
                    ScoreHistories :=
                      ScoreHistories (db w) ++
                        [ {| ScoreHistory.userId := userId request;
                             ScoreHistory.actionId := actionId request;
                             ScoreHistory.scoreChange := scoreIncrement request;
                             ScoreHistory.previousScore := previousScore;
                             ScoreHistory.newScore := newScore;
                             ScoreHistory.timestamp := timestamp request;
                             ScoreHistory.metadata := metadata request |} ] |};
               redis := redis w;
               board := board w;
               queue := queue w |},
            Committed currentScore previousRank newScore)
  | Committed currentScore previousRank newScore =>
      let cache := updateScoreCache (redis w) (userId request) newScore now in
      let '(leaderboard, newRank) := updateUserScore (board w) (userId request) newScore in
      let published :=
        publishScoreUpdate (queue w)
          {| ev_userId := userId request;
             ev_username := Score.username currentScore;
             oldScore := Score.currentScore currentScore;
             ev_newScore := newScore;
             oldRank := previousRank;
             newRank := newRank;
             ev_timestamp := now |} in
      Some ({| db := db w; redis := cache; board := leaderboard; queue := published |},
            Returned (Ok {| success := true; newScore := newScore;
                            rank := newRank; previousRank := previousRank |}))
  | Returned _ => None
  end.

(** The scheduler lets session [i] run to its next [await]; nothing
    happens when it cannot move. *)
Definition step (c : Config Board Rank) (i : nat) : Config Board Rank :=
  match sessions c !! i with
  | Some session =>
      match advance (world c) (sessions c) session with
      | Some (w, next) =>
          {| world := w;
             sessions :=
               <[i := {| request := request session;
                         actionToken := actionToken session;
                         now := now session;
                         stage := next |}]> (sessions c) |}
      | None => c
      end
  | None => c
  end.

Definition exec (c : Config Board Rank) (schedule : list nat) : Config Board Rank :=
  foldl step c schedule.

(** A session whose transaction is committed. *)
Definition hasCommitted (session : Session Rank) : bool :=
  match stage session with
  | Committed _ _ _ | Returned (Ok _) => true
  | _ => false
  end.

(** What a session has added to the score of a user. *)
Definition contribution (user : string) (session : Session Rank) : Z :=
  if hasCommitted session && bool_decide (userId (request session) = user)
  then scoreIncrement (request session) else 0.

(** The sum of the increments committed for a user. *)
Definition committedTotal (user : string) (all : list (Session Rank)) : Z :=
  foldr (fun session sum => contribution user session + sum) 0 all.

(** What holds of the sessions and the scores at every moment, for the
    scores [base] the run began with: a session between its locked
    read and its commit has read the row the table still holds; no
    two sessions hold the row lock of one user; and the score of a
    user is its score in [base] plus what has been committed for it. *)
Definition consistent (base : gmap string Score.t) (c : Config Board Rank) : Prop :=
  (∀ i session action row previous,
      sessions c !! i = Some session →
      stage session = RowLocked action row previous →
      Scores (db (world c)) !! userId (request session) = Some row)
  ∧ (∀ user i j si sj,
      sessions c !! i = Some si → sessions c !! j = Some sj →
      holdsLock user si = true → holdsLock user sj = true → i = j)
  ∧ (∀ user row,
      base !! user = Some row →
      ∃ row', Scores (db (world c)) !! user = Some row'
              ∧ Score.currentScore row'
                = Score.currentScore row + committedTotal user (sessions c)).

(** The calls that have returned, with what they returned. *)
Definition results (c : Config Board Rank) : list (option (Result (UpdateResult Rank))) :=
  (fun session => match stage session with Returned r => Some r | _ => None end)
    <$> sessions c.
End steps.
End Interleaving.

(** ** A concrete installation, for the examples

    The digest is a stand-in (the text itself), the secret is fixed and
    the leaderboard keeps the scores it is told, ranking a user by the
    number of users that score more. *)

Module Demo.

#[global] Instance platform : Platform := {|
  sha256_hex := fun text => text;
  CHECKSUM_SECRET := "s3cret"
|}.

Definition rankIn (scores : gmap string Z) (userId : string) : option Z :=
  match scores !! userId with
  | Some score =>
      Some (1 + Z.of_nat (length (List.filter (fun entry => score <? entry.2) (map_to_list scores))))
  | None => None
  end.

#[global] Instance leaderboard : LeaderboardService (gmap string Z) (option Z) := {|
  getUserRank := rankIn;
  updateUserScore := fun scores userId score =>
    let scores := <[userId := score]> scores in (scores, rankIn scores userId)
|}.

Definition emptyCache : Cache :=
  {| last_action := ∅; action_count := ∅; user_score := ∅; suspicious := ∅ |}.

Definition scoreRow (userId : string) (score : Z) : Score.t :=
  {| Score.id := ("score-" ++ userId)%string;
     Score.userId := userId;
     Score.currentScore := score;
     Score.totalActions := 0;
     Score.lastUpdated := 0;
     Score.username := userId |}.

(** User [alice] at score 100, user [bob] at 40, no action issued. *)
Definition world0 : ScoreService.World (gmap string Z) (option Z) :=
  {| ScoreService.db :=
       {| Actions := ∅;
          Scores := <["alice" := scoreRow "alice" 100]> (<["bob" := scoreRow "bob" 40]> ∅);
          ScoreHistories := [] |};
     ScoreService.redis := emptyCache;
     ScoreService.board := <["alice" := 100]> (<["bob" := 40]> ∅);
     ScoreService.queue := [] |}.

(** [alice] is issued the action [act-1] with the secret [tok-1] at
    instant 1000; it lapses after instant 301000. *)
Definition world1 : ScoreService.World (gmap string Z) (option Z) :=
  (ScoreService.generateActionToken None world0 "alice" "quest" "act-1" "tok-1" 1000).2.

(** A request of [alice] for [act-1] with a well-formed checksum. *)
Definition request (increment : Z) (at_ : Z) : ScoreUpdateRequest :=
  {| userId := "alice";
     actionId := "act-1";
     scoreIncrement := increment;
     timestamp := at_;
     metadata :=
       {| actionType := "quest";
          duration := 30;
          checksum := ("alice:quest:" ++ toString increment ++ ":s3cret")%string |} |}.

(** The action on record in [world1]. *)
Definition action1 : Action.t :=
  {| Action.id := "act-1";
     Action.userId := "alice";
     Action.actionType := "quest";
     Action.status := pending;
     Action.token := "tok-1";
     Action.createdAt := 1000;
     Action.expiresAt := 301000;
     Action.completedAt := None |}.

(** A request of [alice] for [act-1] whose checksum does not match. *)
Definition forgedRequest (increment : Z) (at_ : Z) : ScoreUpdateRequest :=
  {| userId := "alice";
     actionId := "act-1";
     scoreIncrement := increment;
     timestamp := at_;
     metadata := {| actionType := "quest"; duration := 30; checksum := "0000" |} |}.


(** The request of [alice] as the anti-cheat service gets it, and the
    same with a checksum that does not match. *)
Definition attempt (increment : Z) (at_ : Z) : ValidationRequest.t :=
  {| ValidationRequest.userId := "alice";
     ValidationRequest.scoreIncrement := increment;
     ValidationRequest.actionType := "quest";
     ValidationRequest.timestamp := at_;
     ValidationRequest.checksum := ("alice:quest:" ++ toString increment ++ ":s3cret")%string |}.

Definition forged (increment : Z) (at_ : Z) : ValidationRequest.t :=
  {| ValidationRequest.userId := "alice";
     ValidationRequest.scoreIncrement := increment;
     ValidationRequest.actionType := "quest";
     ValidationRequest.timestamp := at_;
     ValidationRequest.checksum := "0000" |}.

(** Two calls of [alice] in flight for the one action [act-1], of 50
    points each, the second stamped a second after the first. *)
Definition twoCalls : Interleaving.Config (gmap string Z) (option Z) :=
  {| Interleaving.world := world1;
     Interleaving.sessions :=
       [ {| Interleaving.request := request 50 2000;
            Interleaving.actionToken := "tok-1";
            Interleaving.now := 2000;
            Interleaving.stage := Interleaving.Begun |};
         {| Interleaving.request := request 50 3000;
            Interleaving.actionToken := "tok-1";
            Interleaving.now := 2000;
            Interleaving.stage := Interleaving.Begun |} ] |}.

(** Users [A] and [B] tie at 500, user [C] has 300. *)
Definition tied : Database :=
  {| Actions := ∅;
     Scores := <["A" := scoreRow "A" 500]> (<["B" := scoreRow "B" 500]> (<["C" := scoreRow "C" 300]> ∅));
     ScoreHistories := [] |}.

End Demo.

(** ** WebSocket service: the registry of connections

    [connectedUsers] is a [Map] from a user id to the [Set] of the ids
    of the sockets of that user. *)

Module WebSocketService.

Definition addUserConnection (connectedUsers : gmap string (gset string))
    (userId socketId : string) : gmap string (gset string) :=
  let connectedUsers :=
    match connectedUsers !! userId with
    | Some _ => connectedUsers
    | None => <[userId := ∅]> connectedUsers
    end in
  match connectedUsers !! userId with
  | Some connections => <[userId := connections ∪ {[socketId]}]> connectedUsers
  | None => connectedUsers
  end.

Definition removeUserConnection (connectedUsers : gmap string (gset string))
    (userId socketId : string) : gmap string (gset string) :=
  match connectedUsers !! userId with
  | Some connections =>
      let connections := connections ∖ {[socketId]} in
      if bool_decide (size connections = 0%nat)
      then delete userId connectedUsers
      else <[userId := connections]> connectedUsers
  | None => connectedUsers
  end.

Definition getConnectedUsersCount (connectedUsers : gmap string (gset string)) : nat :=
  size connectedUsers.

(** A call on the registry. *)
Inductive Change :=
| Add (userId socketId : string)
| Remove (userId socketId : string).

Definition apply (connectedUsers : gmap string (gset string)) (change : Change)
  : gmap string (gset string) :=
  match change with
  | Add userId socketId => addUserConnection connectedUsers userId socketId
  | Remove userId socketId => removeUserConnection connectedUsers userId socketId
  end.

(** The registry after a sequence of calls, from the empty one. *)
Definition after (changes : list Change) : gmap string (gset string) :=
  foldl apply ∅ changes.

(** The pairs of a user and a socket that a sequence of calls leaves
    connected: a pair is in when the last call that names it is an
    addition. *)
Definition connected (changes : list Change) : gset (string * string) :=
  foldl (fun pairs change =>
           match change with
           | Add userId socketId => pairs ∪ {[(userId, socketId)]}
           | Remove userId socketId => pairs ∖ {[(userId, socketId)]}
           end) ∅ changes.

(** A socket is listed under a user. *)
Definition listed (connectedUsers : gmap string (gset string)) (userId socketId : string) : Prop :=
  ∃ connections, connectedUsers !! userId = Some connections ∧ socketId ∈ connections.

(** No user is kept with an empty set of sockets. *)
Definition trimmed (connectedUsers : gmap string (gset string)) : Prop :=
  ∀ userId connections, connectedUsers !! userId = Some connections → connections ≠ ∅.

End WebSocketService.

(** ** Attempts in a row at the anti-cheat service *)

Module Attempts.

(** A call of [validateScoreUpdate]: the history rows on record, the
    request and the instant of the call. *)
Record t := mk {
  history : list ScoreHistory.t;
  request : ValidationRequest.t;
  now : Z
}.

(** The cache after a row of attempts that are all accepted, each made
    on the cache the one before left; [None] when one is rejected. *)
Fixpoint acceptAll `{Platform} (cache : Cache) (attempts : list t) : option Cache :=
  match attempts with
  | [] => Some cache
  | attempt :: attempts =>
      match AntiCheatService.validateScoreUpdate (history attempt) cache (request attempt) (now attempt) with
      | (true, cache, _) => acceptAll cache attempts
      | (false, _, _) => None
      end
  end.

(** Each attempt comes no earlier than the one before and less than an
    hour after it. *)
Fixpoint spaced (first : t) (rest : list t) : Prop :=
  match rest with
  | [] => True
  | next :: rest => now first ≤ now next < now first + 3600000 ∧ spaced next rest
  end.

(** The rows of a user. *)
Definition rowsOf (user : string) (history : list ScoreHistory.t) : list ScoreHistory.t :=
  List.filter (fun row => bool_decide (ScoreHistory.userId row = user)) history.

End Attempts.

(** ** The audit trail, the cache and the queue of the score service *)

Module Audit.
Import ScoreService.

(** The rows of a user chain: the new score of a row is its previous
    score plus its change, a row starts from the score the row before
    ended at, and the last row ends at [final]. [start], when given,
    is the score the first row starts from. *)
Fixpoint chained (start : option Z) (rows : list ScoreHistory.t) (final : Z) : Prop :=
  match rows with
  | [] => match start with Some score => score = final | None => True end
  | row :: rows =>
      match start with Some score => ScoreHistory.previousScore row = score | None => True end
      ∧ ScoreHistory.newScore row = ScoreHistory.previousScore row + ScoreHistory.scoreChange row
      ∧ chained (Some (ScoreHistory.newScore row)) rows final
  end.

(** The history of every user with a score row chains up to the
    current score of that row. *)
Definition audited (database : Database) : Prop :=
  ∀ user row, Scores database !! user = Some row →
    chained None (Attempts.rowsOf user (ScoreHistories database)) (Score.currentScore row).

(** Every score held under [user_score:] is the current score of
    that user in the database. *)
Definition coherent {Board Rank : Type} (w : World Board Rank) : Prop :=
  ∀ user score deadline, user_score (redis w) !! user = Some (score, deadline) →
    ∃ row, Scores (db w) !! user = Some row ∧ Score.currentScore row = score.



(** The number of requests of a user. *)
Definition count (user : string) (requests : list ScoreUpdateRequest) : Z :=
  Z.of_nat (length (List.filter (fun request => bool_decide (userId request = user)) requests)).

(** The request as the anti-cheat service is given it. *)
Definition validation (request : ScoreUpdateRequest) : ValidationRequest.t :=
  {| ValidationRequest.userId := userId request;
     ValidationRequest.scoreIncrement := scoreIncrement request;
     ValidationRequest.actionType := actionType (metadata request);
     ValidationRequest.timestamp := timestamp request;
     ValidationRequest.checksum := checksum (metadata request) |}.

End Audit.

(** ** The cache manager on Redis *)

(** The methods of [CacheManager] on the Redis keyspace. A value is
    stored as its JSON text and read back from it; the keyspace holds
    the value the text stands for. A JSON text is never the empty
    string, so [get] answers [null] for a missing key only. *)
Module CacheStore.
Section store.
Context {A : Type}.

Definition get (store : gmap string (A * option Z)) (key : string) (now : Z) : option A :=
  Redis.get store key now.

Definition set (store : gmap string (A * option Z)) (key : string) (value : A) (ttl : Z) (now : Z)
  : gmap string (A * option Z) :=
  Redis.setex store key ttl value now.

Definition del (store : gmap string (A * option Z)) (key : string) : gmap string (A * option Z) :=
  delete key store.

Definition exists_ (store : gmap string (A * option Z)) (key : string) (now : Z) : bool :=
  bool_decide (is_Some (Redis.get store key now)).

End store.

(** [getLeaderboard database store now leaderboard store']: the call
    at [now] may answer [leaderboard] and leave [store']. A cached
    array, empty or not, is truthy and is returned as it is. *)
Definition getLeaderboard (database : Database) (store : gmap string (list Score.t * option Z))
    (now : Z) (leaderboard : list Score.t) (store' : gmap string (list Score.t * option Z)) : Prop :=
  match get store "leaderboard:top10" now with
  | Some cached => leaderboard = cached ∧ store' = store
  | None =>
      CacheManager.calculateLeaderboard database leaderboard
      ∧ store' = set store "leaderboard:top10" leaderboard 60 now
  end.

(** A call of [getLeaderboard]: the database at the instant of the
    call, the instant, and the answer. *)
Record Served := mkServed {
  database : Database;
  instant : Z;
  answer : list Score.t
}.

(** Calls of [getLeaderboard] one after the other, with no other
    writer of the key. *)
Fixpoint serve (store : gmap string (list Score.t * option Z)) (calls : list Served)
    (store' : gmap string (list Score.t * option Z)) : Prop :=
  match calls with
  | [] => store' = store
  | call :: calls =>
      ∃ next, getLeaderboard (database call) store (instant call) (answer call) next
              ∧ serve next calls store'
  end.

(** What the key holds was computed by one of the calls [earlier]
    and lapses 60 seconds after that call. *)
Definition backed (earlier : list Served) (store : gmap string (list Score.t * option Z)) : Prop :=
  ∀ value deadline, store !! "leaderboard:top10" = Some (value, deadline) →
    ∃ source, source ∈ earlier
              ∧ deadline = Some (instant source + 60000)
              ∧ CacheManager.calculateLeaderboard (database source) value.

End CacheStore.

(** ** The authentication service *)

Module User.
Record t := mk {
  id : string;
  username : string;
  email : string;
  passwordHash : string;
  lastLoginAt : option Z
}.
End User.

Module AuthService.

(** The object a token carries: the three fields of [TokenPayload]
    and, in a refresh token, the field [type]. *)
Record TokenPayload := mkPayload {
  userId : string;
  username : string;
  sessionId : string;
  type : option string
}.

(** The libraries and the environment of the service:
    [jwt.sign(payload, secret, { expiresIn })] at an instant,
    [jwt.verify(token, secret)] at an instant ([None] when it throws),
    [bcrypt.compare] and the two secrets. A signed token is never the
    empty string. *)
Class Environment := {
  JWT_SECRET : string;
  JWT_REFRESH_SECRET : string;
  jwt_sign : TokenPayload → string → Z → Z → string;
  jwt_verify : string → string → Z → option TokenPayload;
  bcrypt_compare : string → string → bool;
  jwt_sign_not_empty : ∀ payload secret expiresIn now, jwt_sign payload secret expiresIn now ≠ ""
}.

(** The [Users] table by its unique [username], the keys
    [session:<sessionId>] and the members of the sets
    [user_sessions:<userId>]. *)
Record Store := mkStore {
  Users : gmap string User.t;
  sessions : gmap string (string * option Z);
  user_sessions : gset (string * string)
}.

Inductive Failure :=
| Thrown (message : string)
| JwtError.

Inductive Outcome (A : Type) :=
| Returned (a : A)
| Failed (failure : Failure).
Arguments Returned {A}.
Arguments Failed {A}.

Record LoginResult := mkLogin {
  accessToken : string;
  refreshToken_ : string;
  expiresIn : Z
}.

Record RefreshResult := mkRefresh {
  newAccessToken : string;
  newExpiresIn : Z
}.

Section service.
Context `{Environment}.

Definition storeSession (store : Store) (sessionId userId refreshToken : string) (now : Z) : Store :=
  {| Users := Users store;
     sessions := Redis.setex (sessions store) sessionId 604800 refreshToken now;
     user_sessions := user_sessions store ∪ {[(userId, sessionId)]} |}.

(** [login]: [sessionId] is the outcome of [uuidv4()]. *)
Definition login (store : Store) (username password : string) (sessionId : string) (now : Z)
  : Outcome LoginResult * Store :=
  match Users store !! username with
  | Some user =>
      if negb (bcrypt_compare password (User.passwordHash user))
      then (Failed (Thrown "Invalid credentials"), store)
      else
        let payload :=
          {| userId := User.id user; username := User.username user;
             sessionId := sessionId; type := None |} in
        let accessToken := jwt_sign payload JWT_SECRET 3600 now in
        let refreshToken :=
          jwt_sign {| userId := User.id user; username := User.username user;
                      sessionId := sessionId; type := Some "refresh" |}
            JWT_REFRESH_SECRET 604800 now in
        let store := storeSession store sessionId (User.id user) refreshToken now in
        let store :=
          {| Users :=
               <[username :=
                   {| User.id := User.id user;
                      User.username := User.username user;
                      User.email := User.email user;
                      User.passwordHash := User.passwordHash user;
                      User.lastLoginAt := Some now |}]> (Users store);
             sessions := sessions store;
             user_sessions := user_sessions store |} in
        (Returned {| accessToken := accessToken; refreshToken_ := refreshToken; expiresIn := 3600 |},
         store)
  | None => (Failed (Thrown "Invalid credentials"), store)
  end.

Definition validateToken (store : Store) (token : string) (now : Z) : Outcome TokenPayload :=
  match jwt_verify token JWT_SECRET now with
  | None => Failed JwtError
  | Some payload =>
      match Redis.get (sessions store) (sessionId payload) now with
      | Some session =>
          if bool_decide (session = "") then Failed (Thrown "Session expired")
          else Returned payload
      | None => Failed (Thrown "Session expired")
      end
  end.

Definition refreshToken (store : Store) (refreshToken : string) (now : Z) : Outcome RefreshResult :=
  match jwt_verify refreshToken JWT_REFRESH_SECRET now with
  | None => Failed JwtError
  | Some payload =>
      if bool_decide (type payload ≠ Some "refresh") then Failed (Thrown "Invalid token type")
      else
        let storedToken := Redis.get (sessions store) (sessionId payload) now in
        if bool_decide (storedToken ≠ Some refreshToken)
        then Failed (Thrown "Invalid refresh token")
        else
          let accessToken :=
            jwt_sign {| userId := userId payload; username := username payload;
                        sessionId := sessionId payload; type := None |}
              JWT_SECRET 3600 now in
          Returned {| newAccessToken := accessToken; newExpiresIn := 3600 |}
  end.

Definition logout (store : Store) (sessionId userId : string) : Store :=
  {| Users := Users store;
     sessions := delete sessionId (sessions store);
     user_sessions := user_sessions store ∖ {[(userId, sessionId)]} |}.

(** The calls that write to the store. *)
Inductive Call :=
| Login (username password sessionId : string) (now : Z)
| Logout (sessionId userId : string).

Definition perform (store : Store) (call : Call) : Store :=
  match call with
  | Login username password sessionId now => (login store username password sessionId now).2
  | Logout sessionId userId => logout store sessionId userId
  end.

(** The call is a login that draws the session id [sessionId]. *)
Definition opens (sessionId : string) (call : Call) : bool :=
  match call with
  | Login _ _ drawn _ => bool_decide (drawn = sessionId)
  | Logout _ _ => false
  end.

End service.
End AuthService.

(** ** The authentication middleware *)

Module AuthMiddleware.
Import AuthService.

(** What the middleware does with a request: it hands it on with
    [req.user] set, or answers 401 with an error. *)
Inductive Response :=
| Next (user : TokenPayload)
| Status401 (error : string).

(** [authenticate]: [authorization] is the header of the request,
    [None] when it has none. *)
Definition authenticate `{Environment} (store : Store) (authorization : option string) (now : Z)
  : Response :=
  match authorization with
  | Some authHeader =>
      if negb (String.prefix "Bearer " authHeader) then Status401 "No token provided"
      else
        let token := String.substring 7 (String.length authHeader - 7) authHeader in
        match validateToken store token now with
        | Returned payload => Next payload
        | Failed _ => Status401 "Invalid token"
        end
  | None => Status401 "No token provided"
  end.

End AuthMiddleware.

(** ** The events of a socket *)

Module SocketEvents.
Import AuthService WebSocketService.

(** What the server emits to a socket. *)
Inductive Emitted (L : Type) :=
| Authenticated (success : bool) (leaderboard : option L) (error : option string)
| Pong (timestamp : Z).
Arguments Authenticated {L}.
Arguments Pong {L}.

(** A socket of the server: its id, the two fields the service sets
    on it, the rooms it has joined, what was emitted to it, and
    whether it is still connected. *)
Record Socket (L : Type) := mkSocket {
  id : string;
  userId : option string;
  username : option string;
  rooms : gset string;
  emitted : list (Emitted L);
  connected : bool
}.
Arguments mkSocket {L}.
Arguments id {L}.
Arguments userId {L}.
Arguments username {L}.
Arguments rooms {L}.
Arguments emitted {L}.
Arguments connected {L}.

Section handlers.
Context `{Environment} {L : Type}.

(** The handler of [disconnect]; an empty user id is falsy. *)
Definition onDisconnect (connectedUsers : gmap string (gset string)) (socket : Socket L)
  : gmap string (gset string) :=
  match userId socket with
  | Some user =>
      if bool_decide (user = "") then connectedUsers
      else removeUserConnection connectedUsers user (id socket)
  | None => connectedUsers
  end.

(** [socket.disconnect()]: the socket leaves its rooms and the
    handler of [disconnect] runs. *)
Definition disconnect (connectedUsers : gmap string (gset string)) (socket : Socket L)
  : gmap string (gset string) * Socket L :=
  (onDisconnect connectedUsers socket,
   {| id := id socket; userId := userId socket; username := username socket;
      rooms := ∅; emitted := emitted socket; connected := false |}).

Definition emit (socket : Socket L) (message : Emitted L) : Socket L :=
  {| id := id socket; userId := userId socket; username := username socket;
     rooms := rooms socket; emitted := emitted socket ++ [message];
     connected := connected socket |}.

Definition join (socket : Socket L) (room : string) : Socket L :=
  {| id := id socket; userId := userId socket; username := username socket;
     rooms := rooms socket ∪ {[room]}; emitted := emitted socket;
     connected := connected socket |}.

(** The handler of [auth]: [top10] is the answer of
    [leaderboardService.getTop10()], [None] when it throws. *)
Definition onAuth (store : Store) (top10 : option L)
    (connectedUsers : gmap string (gset string)) (socket : Socket L) (token : string) (now : Z)
  : gmap string (gset string) * Socket L :=
  let failure connectedUsers socket :=
    disconnect connectedUsers
      (emit socket (Authenticated false None (Some "Authentication failed"))) in
  match validateToken store token now with
  | Returned payload =>
      let socket :=
        {| id := id socket;
           userId := Some (AuthService.userId payload);
           username := Some (AuthService.username payload);
           rooms := rooms socket; emitted := emitted socket; connected := connected socket |} in
      let connectedUsers := addUserConnection connectedUsers (AuthService.userId payload) (id socket) in
      let socket := join socket ("user:" ++ AuthService.userId payload) in
      let socket := join socket "leaderboard" in
      match top10 with
      | Some leaderboard => (connectedUsers, emit socket (Authenticated true (Some leaderboard) None))
      | None => failure connectedUsers socket
      end
  | Failed _ => failure connectedUsers socket
  end.

(** The handler of [ping]. *)
Definition onPing (socket : Socket L) (now : Z) : Socket L :=
  emit socket (Pong now).

(** An [auth] event of a socket with what its handler reads: the
    store of the sessions, the answer of [getTop10], the token sent
    and the instant. *)
Record AuthEvent := mkAuthEvent {
  store : Store;
  top10 : option L;
  token : string;
  instant : Z
}.

(** The [auth] events a socket sends, handled one after the other; a
    socket that has been disconnected sends no more. *)
Fixpoint authenticateAll (connectedUsers : gmap string (gset string)) (socket : Socket L)
    (events : list AuthEvent) : gmap string (gset string) * Socket L :=
  match events with
  | [] => (connectedUsers, socket)
  | event :: events =>
      if connected socket then
        let '(connectedUsers, socket) :=
          onAuth (store event) (top10 event) connectedUsers socket (token event) (instant event) in
        authenticateAll connectedUsers socket events
      else (connectedUsers, socket)
  end.

End handlers.
Arguments AuthEvent : clear implicits.
Arguments mkAuthEvent {L}.
End SocketEvents.

(** ** Further sample data *)

Module Samples.

(** An attempt of [bob] and a history row of his. *)
Definition bobAttempt : ValidationRequest.t :=
  {| ValidationRequest.userId := "bob";
     ValidationRequest.scoreIncrement := 20;
     ValidationRequest.actionType := "quest";
     ValidationRequest.timestamp := 1500;
     ValidationRequest.checksum := "bob:quest:20:s3cret" |}.

Definition bobRow : ScoreHistory.t :=
  {| ScoreHistory.userId := "bob";
     ScoreHistory.actionId := "act-7";
     ScoreHistory.scoreChange := 20;
     ScoreHistory.previousScore := 20;
     ScoreHistory.newScore := 40;
     ScoreHistory.timestamp := 1500;
     ScoreHistory.metadata :=
       {| actionType := "quest"; duration := 10; checksum := "bob:quest:20:s3cret" |} |}.

(** [carol] has no score row; she is issued the action [act-9]. *)
Definition world9 : ScoreService.World (gmap string Z) (option Z) :=
  (ScoreService.generateActionToken None Demo.world0 "carol" "quest" "act-9" "tok-9" 1000).2.

Definition request9 : ScoreUpdateRequest :=
  {| userId := "carol";
     actionId := "act-9";
     scoreIncrement := 10;
     timestamp := 2000;
     metadata :=
       {| actionType := "quest"; duration := 30; checksum := "carol:quest:10:s3cret" |} |}.

Definition action9 : Action.t :=
  {| Action.id := "act-9";
     Action.userId := "carol";
     Action.actionType := "quest";
     Action.status := pending;
     Action.token := "tok-9";
     Action.createdAt := 1000;
     Action.expiresAt := 301000;
     Action.completedAt := None |}.

(** The score row of [alice] in [Demo.world1] after 50 points more. *)
Definition aliceAfter : Score.t :=
  {| Score.id := "score-alice";
     Score.userId := "alice";
     Score.currentScore := 150;
     Score.totalActions := 1;
     Score.lastUpdated := 2000;
     Score.username := "alice" |}.

(** Two calls of [getLeaderboard], 29 seconds apart, with the same
    answer; the database of the second call is another one. *)
Definition board3 : list Score.t :=
  [Demo.scoreRow "A" 500; Demo.scoreRow "B" 500; Demo.scoreRow "C" 300].

Definition served : list CacheStore.Served :=
  [ {| CacheStore.database := Demo.tied; CacheStore.instant := 1000;
       CacheStore.answer := board3 |};
    {| CacheStore.database := ScoreService.db Demo.world0; CacheStore.instant := 30000;
       CacheStore.answer := board3 |} ].

(** A token library for two sessions: a token names its secret and
    its session, and the tokens of the sessions [s-1] of [alice] and
    [s-2] of [bob] verify at any instant. *)
Definition payloadOf (userId username sessionId : string) (type : option string)
  : AuthService.TokenPayload :=
  {| AuthService.userId := userId; AuthService.username := username;
     AuthService.sessionId := sessionId; AuthService.type := type |}.

#[global] Instance environment : AuthService.Environment := {|
  AuthService.JWT_SECRET := "access-secret";
  AuthService.JWT_REFRESH_SECRET := "refresh-secret";
  AuthService.jwt_sign := fun payload secret expiresIn now =>
    ("jwt:" ++ secret ++ ":" ++ AuthService.sessionId payload)%string;
  AuthService.jwt_verify := fun token secret now =>
    if bool_decide (token = "jwt:access-secret:s-1" ∧ secret = "access-secret")
    then Some (payloadOf "u-1" "alice" "s-1" None)
    else if bool_decide (token = "jwt:access-secret:s-2" ∧ secret = "access-secret")
    then Some (payloadOf "u-2" "bob" "s-2" None)
    else if bool_decide (token = "jwt:refresh-secret:s-1" ∧ secret = "refresh-secret")
    then Some (payloadOf "u-1" "alice" "s-1" (Some "refresh"))
    else None;
  AuthService.bcrypt_compare := fun password hash =>
    bool_decide (hash = ("hash:" ++ password)%string);
  AuthService.jwt_sign_not_empty := fun payload secret expiresIn now => ltac:(discriminate)
|}.

Definition user (id username password : string) : User.t :=
  {| User.id := id;
     User.username := username;
     User.email := (username ++ "@example.org")%string;
     User.passwordHash := ("hash:" ++ password)%string;
     User.lastLoginAt := None |}.

Definition store0 : AuthService.Store :=
  {| AuthService.Users := <["alice" := user "u-1" "alice" "pw-1"]> (<["bob" := user "u-2" "bob" "pw-2"]> ∅);
     AuthService.sessions := ∅;
     AuthService.user_sessions := ∅ |}.

(** [alice] logs in at instant 1000 with the session [s-1], [bob] at
    instant 2000 with the session [s-2]. *)
Definition store1 : AuthService.Store :=
  (AuthService.login store0 "alice" "pw-1" "s-1" 1000).2.

Definition store2 : AuthService.Store :=
  (AuthService.login store1 "bob" "pw-2" "s-2" 2000).2.

Definition tokens1 : AuthService.LoginResult :=
  {| AuthService.accessToken := "jwt:access-secret:s-1";
     AuthService.refreshToken_ := "jwt:refresh-secret:s-1";
     AuthService.expiresIn := 3600 |}.

(** A socket that has just connected. *)
Definition socket1 : SocketEvents.Socket (list string) :=
  {| SocketEvents.id := "sock-1";
     SocketEvents.userId := None;
     SocketEvents.username := None;
     SocketEvents.rooms := {["sock-1"]};
     SocketEvents.emitted := [];
     SocketEvents.connected := true |}.

End Samples.

(** * Properties *)

Section properties.
Context `{Platform} {Board Rank : Type} `{LeaderboardService Board Rank}.
Import ScoreService.

Implicit Types (w : World Board Rank) (request : ScoreUpdateRequest) (fault : option Statement).

(** ** Inversion of the statements of [updateScore] *)

Lemma statement_Ok {A} fault s (outcome x : A) :
  statement fault s outcome = Ok x → faulty fault s = false ∧ x = outcome.
Proof. unfold statement. destruct (faulty fault s); [discriminate|]. intros [= <-]. done. Qed.

Lemma statement_Err {A} fault s (outcome : A) e :
  statement fault s outcome = Err e → fault = Some s ∧ e = StoreConflict s.
Proof.
  unfold statement, faulty. case_bool_decide; [|discriminate]. intros [= <-]. done.
Qed.

Lemma statement_no_fault {A} s (outcome : A) : statement None s outcome = Ok outcome.
Proof. reflexivity. Qed.

Lemma validateActionToken_Ok fault tx token actionId userId now action :
  validateActionToken fault tx token actionId userId now = Ok action →
  findPendingAction tx actionId userId token = Some action ∧ now ≤ Action.expiresAt action.
Proof.
  unfold validateActionToken, mbind, Result_bind.
  destruct (statement _ _ _) as [found|] eqn:Hs; [|discriminate].
  apply statement_Ok in Hs as [_ ->].
  destruct (findPendingAction _ _ _ _) as [a|]; [|discriminate].
  destruct (now >? Action.expiresAt a) eqn:Hgt; [discriminate|].
  intros [= <-]. split; [done|]. rewrite Z.gtb_ltb in Hgt. lia.
Qed.

Lemma findPendingAction_Some tx actionId userId token action :
  findPendingAction tx actionId userId token = Some action ↔
  Actions tx !! actionId = Some action ∧ Action.userId action = userId
  ∧ Action.token action = token ∧ Action.status action = pending.
Proof.
  unfold findPendingAction. destruct (Actions tx !! actionId) as [a|].
  - repeat case_bool_decide; simpl; split.
    all: try (intros [= <-]; done).
    all: try discriminate.
    all: intros ([= <-] & ? & ? & ?); done.
  - split; [discriminate|]. intros [? _]. discriminate.
Qed.

Lemma mutate_Ok fault tx leaderboard request action now committed currentScore previousRank newScore :
  mutate fault tx leaderboard request action now = Ok (committed, currentScore, previousRank, newScore) →
  Scores tx !! userId request = Some currentScore
  ∧ previousRank = getUserRank leaderboard (userId request)
  ∧ newScore = Score.currentScore currentScore + scoreIncrement request
  ∧ Scores committed !! userId request
      = Some {| Score.id := Score.id currentScore;
                Score.userId := Score.userId currentScore;
                Score.currentScore := newScore;
                Score.totalActions := Score.totalActions currentScore + 1;
                Score.lastUpdated := now;
                Score.username := Score.username currentScore |}
  ∧ (∀ other, other ≠ userId request → Scores committed !! other = Scores tx !! other)
  ∧ ScoreHistories committed
      = (ScoreHistories tx ++
          [ {| ScoreHistory.userId := userId request;
               ScoreHistory.actionId := actionId request;
               ScoreHistory.scoreChange := scoreIncrement request;
               ScoreHistory.previousScore := Score.currentScore currentScore;
               ScoreHistory.newScore := newScore;
               ScoreHistory.timestamp := timestamp request;
               ScoreHistory.metadata := metadata request |} ])%list
  ∧ Actions committed
      = <[Action.id action :=
            {| Action.id := Action.id action;
               Action.userId := Action.userId action;
               Action.actionType := Action.actionType action;
               Action.status := completed;
               Action.token := Action.token action;
               Action.createdAt := Action.createdAt action;
               Action.expiresAt := Action.expiresAt action;
               Action.completedAt := Some now |}]> (Actions tx).
Proof.
  unfold mutate, mbind, Result_bind, statement.
  destruct (faulty fault FindScore); [discriminate|].
  destruct (Scores tx !! userId request) as [row|] eqn:Hrow; [|discriminate].
  destruct (faulty fault UpdateScoreRow); [discriminate|].
  destruct (faulty fault CreateHistory); [discriminate|].
  destruct (faulty fault UpdateAction); [discriminate|].
  destruct (faulty fault Commit); [discriminate|].
  intros [= <- <- <- <-]. simpl.
  split_and!; try done.
  - by rewrite lookup_insert_eq.
  - intros other Hne. by rewrite lookup_insert_ne.
Qed.

Lemma mutate_Err_no_fault tx leaderboard request action now e :
  mutate None tx leaderboard request action now = Err e →
  Scores tx !! userId request = None ∧ e = Error "User score not found".
Proof.
  unfold mutate, mbind, Result_bind, statement. simpl.
  destruct (Scores tx !! userId request); [discriminate|]. intros [= <-]. done.
Qed.

(** The two ways a call goes. Either it ends in an error before its
    transaction is committed, and leaves the database, the leaderboard
    and the queue as they were; or its transaction is committed, the
    score cache is written, and the call returns, or ends in the error
    of the rollback because the leaderboard service or the publisher
    raised. *)
Lemma updateScore_cases fault w request actionToken now :
  (∃ e, (updateScore fault w request actionToken now).1 = Err e
        ∧ db (updateScore fault w request actionToken now).2 = db w
        ∧ board (updateScore fault w request actionToken now).2 = board w
        ∧ queue (updateScore fault w request actionToken now).2 = queue w)
  ∨ (∃ action currentScore cache previous new,
       validateActionToken fault (db w) actionToken (actionId request) (userId request) now
       = Ok action
       ∧ findPendingAction (db w) (actionId request) (userId request) actionToken = Some action
       ∧ now ≤ Action.expiresAt action
       ∧ (AntiCheatService.validateScoreUpdate (ScoreHistories (db w)) (redis w)
            {| ValidationRequest.userId := userId request;
               ValidationRequest.scoreIncrement := scoreIncrement request;
               ValidationRequest.actionType := actionType (metadata request);
               ValidationRequest.timestamp := timestamp request;
               ValidationRequest.checksum := checksum (metadata request) |} now).1 = (true, cache)
       ∧ mutate fault (db w) (board w) request action now
         = Ok (db (updateScore fault w request actionToken now).2, currentScore, previous, new)
       ∧ redis (updateScore fault w request actionToken now).2
         = updateScoreCache cache (userId request) new now
       ∧ ((∃ r, (updateScore fault w request actionToken now).1 = Ok r)
          ∨ ((updateScore fault w request actionToken now).1 = Err rollbackFinished
             ∧ queue (updateScore fault w request actionToken now).2 = queue w
             ∧ (fault = Some UpdateUserScore ∨ fault = Some Publish)))).
Proof.
  unfold updateScore.
  destruct (validateActionToken _ _ _ _ _ _) as [action|e0] eqn:Htoken; [|left; by eexists].
  pose proof (validateActionToken_Ok _ _ _ _ _ _ _ Htoken) as [Hfound Hlive].
  destruct (AntiCheatService.validateScoreUpdate _ _ _ _) as [[isValid cache] accesses] eqn:Hvalid.
  destruct isValid; cbn [negb]; [|left; by eexists].
  destruct (mutate _ _ _ _ _ _) as [[[[committed row] previous] new]|e1] eqn:Hmutate;
    [|left; by eexists].
  right. exists action, row, cache, previous, new.
  unfold statement, faulty.
  case_bool_decide as Hboard.
  { simpl. split_and!; try done. right. split_and!; try done. by left. }
  destruct (updateUserScore _ _ _) as [leaderboard newRank] eqn:Hupdate.
  case_bool_decide as Hpublish.
  { simpl. split_and!; try done. right. split_and!; try done. by right. }
  simpl. split_and!; try done. left. by eexists.
Qed.

(** A call that fails has left the database, the leaderboard and the
    queue as they were, unless it failed after its commit. *)
Lemma updateScore_Err fault w request actionToken now e w' :
  updateScore fault w request actionToken now = (Err e, w') →
  fault ≠ Some UpdateUserScore → fault ≠ Some Publish →
  db w' = db w ∧ board w' = board w ∧ queue w' = queue w.
Proof.
  intros Hcall Hboard Hpublish.
  destruct (updateScore_cases fault w request actionToken now)
    as [(e' & _ & Hdb)|(action & row & cache & previous & new & _ & _ & _ & _ & _ & _ & Hend)];
    rewrite Hcall in *; simpl in *; [done|].
  destruct Hend as [[r [=]]|(_ & _ & [?|?])]; done.
Qed.

(** A call that fails at the validation of its token has changed
    nothing. *)
Lemma updateScore_refused fault w request actionToken now e :
  validateActionToken fault (db w) actionToken (actionId request) (userId request) now = Err e →
  updateScore fault w request actionToken now = (Err e, w).
Proof. intros Htoken. unfold updateScore. by rewrite Htoken. Qed.

(** What a call that succeeds has done. *)
Lemma updateScore_Ok fault w request actionToken now r w' :
  updateScore fault w request actionToken now = (Ok r, w') →
  ∃ action currentScore cache,
    validateActionToken fault (db w) actionToken (actionId request) (userId request) now = Ok action
    ∧ findPendingAction (db w) (actionId request) (userId request) actionToken = Some action
    ∧ now ≤ Action.expiresAt action
    ∧ (AntiCheatService.validateScoreUpdate (ScoreHistories (db w)) (redis w)
         {| ValidationRequest.userId := userId request;
            ValidationRequest.scoreIncrement := scoreIncrement request;
            ValidationRequest.actionType := actionType (metadata request);
            ValidationRequest.timestamp := timestamp request;
            ValidationRequest.checksum := checksum (metadata request) |} now).1 = (true, cache)
    ∧ mutate fault (db w) (board w) request action now
        = Ok (db w', currentScore, previousRank r, newScore r)
    ∧ success r = true
    ∧ (board w', rank r) = updateUserScore (board w) (userId request) (newScore r)
    ∧ redis w' = updateScoreCache cache (userId request) (newScore r) now
    ∧ queue w' = publishScoreUpdate (queue w)
                   {| ev_userId := userId request;
                      ev_username := Score.username currentScore;
                      oldScore := Score.currentScore currentScore;
                      ev_newScore := newScore r;
                      oldRank := previousRank r;
                      newRank := rank r;
                      ev_timestamp := now |}.
Proof.
  unfold updateScore.
  destruct (validateActionToken _ _ _ _ _ _) as [action|e0] eqn:Htoken; [|discriminate].
  pose proof (validateActionToken_Ok _ _ _ _ _ _ _ Htoken) as [Hfound Hlive].
  destruct (AntiCheatService.validateScoreUpdate _ _ _ _) as [[isValid cache] accesses] eqn:Hvalid.
  destruct isValid; cbn [negb]; [|discriminate].
  destruct (mutate _ _ _ _ _ _) as [[[[committed row] previous] new]|e1] eqn:Hmutate; [|discriminate].
  unfold statement.
  destruct (faulty fault UpdateUserScore); [discriminate|].
  destruct (updateUserScore _ _ _) as [leaderboard newRank] eqn:Hboard.
  destruct (faulty fault Publish); [discriminate|].
  intros [= <- <-]. simpl. exists action, row, cache. by rewrite Hboard.
Qed.

Lemma validateActionToken_faulty tx token actionId userId now :
  validateActionToken (Some FindAction) tx token actionId userId now = Err (StoreConflict FindAction).
Proof. reflexivity. Qed.

Lemma validateActionToken_fault_elsewhere fault tx token actionId userId now :
  fault ≠ Some FindAction →
  validateActionToken fault tx token actionId userId now
  = validateActionToken None tx token actionId userId now.
Proof.
  intros Hfault. unfold validateActionToken, mbind, Result_bind, statement, faulty.
  rewrite bool_decide_eq_false_2 by done. done.
Qed.

Lemma mutate_faulty s tx leaderboard request action now :
  s ≠ CreateAction → s ≠ FindAction → s ≠ UpdateUserScore → s ≠ Publish →
  ∃ e, mutate (Some s) tx leaderboard request action now = Err e.
Proof.
  intros Hcreate Hfind Hboard Hpublish. unfold mutate, mbind, Result_bind, statement.
  destruct s; try done; cbn; eauto; destruct (Scores tx !! userId request); eauto.
Qed.

(** The errors of the statements from the locked read to the commit. *)
Lemma mutate_Err fault tx leaderboard request action now e :
  mutate fault tx leaderboard request action now = Err e →
  e = Error "User score not found" ∨ ∃ s, fault = Some s ∧ e = StoreConflict s.
Proof.
  unfold mutate, mbind, Result_bind, statement, faulty.
  repeat (case_bool_decide; [intros [= <-]; right; by eexists|]).
  destruct (Scores tx !! userId request); [|intros [= <-]; by left].
  repeat (case_bool_decide; [intros [= <-]; right; by eexists|]).
  done.
Qed.

(** ** Atomicity of the mutation *)

(** C2. Whenever a step of the atomic unit of [updateScore] fails, the
    call throws and has no effect on the store: when the action token
    is refused (unknown, not of this user, wrong secret, no longer
    pending, or past its expiry), when the anti-cheat service rejects
    the request, when the user has no score row or when the store
    conflicts on a statement of the transaction, the commit included,
    the call ends in an error and leaves the database as it was (every
    score, the history rows, every action with its status), and the
    leaderboard and the queue with it. *)
Theorem updateScore_failure_aborts fault w request actionToken now :
  (∀ action,
      findPendingAction (db w) (actionId request) (userId request) actionToken = Some action →
      Action.expiresAt action < now)
  ∨ (AntiCheatService.validateScoreUpdate (ScoreHistories (db w)) (redis w)
       {| ValidationRequest.userId := userId request;
          ValidationRequest.scoreIncrement := scoreIncrement request;
          ValidationRequest.actionType := actionType (metadata request);
          ValidationRequest.timestamp := timestamp request;
          ValidationRequest.checksum := checksum (metadata request) |} now).1.1 = false
  ∨ Scores (db w) !! userId request = None
  ∨ (∃ s, fault = Some s
          ∧ s ∈ [FindAction; FindScore; UpdateScoreRow; CreateHistory; UpdateAction; Commit])
  →
  ∃ e, (updateScore fault w request actionToken now).1 = Err e
       ∧ db (updateScore fault w request actionToken now).2 = db w
       ∧ board (updateScore fault w request actionToken now).2 = board w
       ∧ queue (updateScore fault w request actionToken now).2 = queue w.
Proof.
  intros Hfail.
  destruct (updateScore_cases fault w request actionToken now)
    as [Haborted|(action & row & cache & previous & new
                  & Htoken & Hfound & Hlive & Hvalid & Hmutate & _)]; [done|].
  exfalso.
  destruct Hfail as [Hrefused|[Hreject|[Hrow|(s & -> & Hs)]]].
  - specialize (Hrefused _ Hfound). lia.
  - rewrite Hvalid in Hreject. discriminate.
  - apply mutate_Ok in Hmutate as (Hrow' & _). congruence.
  - destruct (decide (s = FindAction)) as [->|Hfind].
    + by rewrite validateActionToken_faulty in Htoken.
    + assert (s ≠ CreateAction ∧ s ≠ UpdateUserScore ∧ s ≠ Publish) as (? & ? & ?).
      { repeat (apply elem_of_cons in Hs as [->|Hs]; [done|]). by apply elem_of_nil in Hs. }
      destruct (mutate_faulty s (db w) (board w) request action now) as [e He]; try done.
      congruence.
Qed.

(** ** The result of a successful call *)


(** ** Issuing a token *)

(** C10. Whatever the user, the kind of action and the tokens issued
    before, [generateActionToken] answers with an expiry exactly
    300000 milliseconds after the instant of the call and records the
    action as pending with that expiry: when the store accepts the
    insert (it does not conflict and the fresh identifier is not
    taken), the call returns the identifier, the secret and
    [now + 300000], and the action on record under the identifier is
    pending, of that user and kind, with that secret and expiry. *)
Theorem generateActionToken_expiry w user kind actionId token now :
  Actions (db w) !! actionId = None →
  ∃ w' action,
    generateActionToken None w user kind actionId token now
      = (Ok {| it_actionId := actionId; it_token := token; it_expiresAt := now + 300000 |}, w')
    ∧ Actions (db w') !! actionId = Some action
    ∧ Action.status action = pending
    ∧ Action.expiresAt action = now + 300000
    ∧ Action.userId action = user
    ∧ Action.actionType action = kind
    ∧ Action.token action = token.
Proof.
  intros Hfresh. unfold generateActionToken. simpl.
  rewrite bool_decide_eq_false_2 by (rewrite Hfresh; apply is_Some_None).
  eexists _, _. split; [reflexivity|]. simpl. rewrite lookup_insert_eq. done.
Qed.

(** ** Validation of the action token *)

(** C4, as the code has it. When the store answers the lookup,
    [validateActionToken] hands the action over exactly when the
    action on record under the identifier is of this user, carries
    this secret, is pending, and the instant of the call is not after
    its expiry: a token presented at its very expiry instant is still
    taken, one presented later is not. In every other case the call
    throws one and the same error, [Invalid or expired action token],
    be the token unknown, foreign, spent or expired. The validation
    itself changes nothing; the action is marked completed by
    [updateScore] at the end of its transaction. *)
Theorem validateActionToken_spec (tx : Database) token actionId user now :
  (∀ action,
      validateActionToken None tx token actionId user now = Ok action
      ↔ Actions tx !! actionId = Some action
        ∧ Action.userId action = user
        ∧ Action.token action = token
        ∧ Action.status action = pending
        ∧ now ≤ Action.expiresAt action)
  ∧ ((∀ action, validateActionToken None tx token actionId user now ≠ Ok action) →
     validateActionToken None tx token actionId user now
       = Err (Error "Invalid or expired action token")).
Proof.
  split.
  - intros action. split.
    + intros Hok. apply validateActionToken_Ok in Hok as [Hfound Hlive].
      apply findPendingAction_Some in Hfound as (? & ? & ? & ?). done.
    + intros (Hrow & Huser & Htoken & Hstatus & Hlive).
      unfold validateActionToken, mbind, Result_bind. rewrite statement_no_fault.
      rewrite (proj2 (findPendingAction_Some tx actionId user token action)) by done.
      destruct (now >? Action.expiresAt action) eqn:Hgt; [|done].
      rewrite Z.gtb_ltb in Hgt. lia.
  - intros Hnever. unfold validateActionToken, mbind, Result_bind in *.
    rewrite statement_no_fault in *.
    destruct (findPendingAction tx actionId user token) as [action|]; [|done].
    destruct (now >? Action.expiresAt action); [done|]. by destruct (Hnever action).
Qed.

(** ** Store conflicts *)

Lemma RetrySpec_mutate_unfold retries faults tx leaderboard request (action : Action.t) now :
  RetrySpec.mutate retries faults tx leaderboard request action now
  = match mutate (match faults with fault :: _ => fault | [] => None end)
            tx leaderboard request action now with
    | Err (StoreConflict _) =>
        match retries with
        | O => Err (Error "MutationFailed")
        | S retries => RetrySpec.mutate retries (tail faults) tx leaderboard request action now
        end
    | outcome => outcome
    end.
Proof. destruct retries; reflexivity. Qed.

(** C5, as the code has it. [updateScore] does not retry. Take a call
    that succeeds when the store raises nothing, and let the store
    conflict on the one execution of one statement of its transaction.
    The call then ends at once in an error and the database is as
    before the call: for a statement before the commit that error is
    the error of the store for that statement, rethrown as it was
    raised; for the commit it is the error of the rollback, which
    Sequelize refuses on a transaction its commit has finished, in the
    place of the error of the store. The unit of the specification,
    executed once more after the conflict, would have committed what
    the call without a conflict commits. *)
Theorem updateScore_conflict_surfaces s w request actionToken now r w1 :
  s ∈ [FindAction; FindScore; UpdateScoreRow; CreateHistory; UpdateAction; Commit] →
  updateScore None w request actionToken now = (Ok r, w1) →
  (updateScore (Some s) w request actionToken now).1
  = Err (if bool_decide (s = Commit) then rollbackFinished else StoreConflict s)
  ∧ db (updateScore (Some s) w request actionToken now).2 = db w
  ∧ (s ≠ FindAction →
     ∃ action row,
       findPendingAction (db w) (actionId request) (userId request) actionToken = Some action
       ∧ ∀ retries faults,
           RetrySpec.mutate (S retries) (Some s :: None :: faults) (db w) (board w)
             request action now
           = Ok (db w1, row, previousRank r, newScore r)).
Proof.
  intros Hs Hcall.
  apply updateScore_Ok in Hcall
    as (action & row & cache & Htoken & Hfound & Hlive & Hvalid & Hmutate & _).
  pose proof Hmutate as Hunit. apply mutate_Ok in Hmutate as (Hrow & _).
  destruct (decide (s = FindAction)) as [->|Hfind].
  { unfold updateScore. rewrite validateActionToken_faulty. done. }
  assert (mutate (Some s) (db w) (board w) request action now = Err (StoreConflict s)) as Hfails.
  { unfold mutate, mbind, Result_bind, statement. rewrite Hrow.
    repeat (apply elem_of_cons in Hs as [->|Hs]; [done|]). by apply elem_of_nil in Hs. }
  split_and!.
  - unfold updateScore.
    rewrite validateActionToken_fault_elsewhere, Htoken by congruence.
    destruct (AntiCheatService.validateScoreUpdate _ _ _ _) as [[isValid cache'] accesses].
    simpl in Hvalid. injection Hvalid as -> ->. cbn [negb]. rewrite Hfails. simpl.
    unfold catch. repeat case_bool_decide; congruence.
  - unfold updateScore.
    rewrite validateActionToken_fault_elsewhere, Htoken by congruence.
    destruct (AntiCheatService.validateScoreUpdate _ _ _ _) as [[isValid cache'] accesses].
    simpl in Hvalid. injection Hvalid as -> ->. cbn [negb]. rewrite Hfails. done.
  - intros _. exists action, row. split; [done|]. intros retries faults.
    rewrite RetrySpec_mutate_unfold. cbn [tail]. rewrite Hfails.
    rewrite RetrySpec_mutate_unfold. cbn [tail]. rewrite Hunit. done.
Qed.

End properties.

(** ** The admission decision *)

(** Case analysis on the integer comparisons of the goal. *)
Ltac compare_cases :=
  repeat match goal with
    | |- context [Z.ltb ?a ?b] => destruct (Z.ltb_spec a b)
    | |- context [Z.leb ?a ?b] => destruct (Z.leb_spec a b)
    end;
  simpl; try done; try lia.

Section admission.
Context `{Platform}.
Import AntiCheatService.

(** C6, as the code has it. [validateScoreUpdate] runs the proof
    check, the magnitude bound, the minimum spacing, the hourly volume
    and the pattern check in this order and stops at the first that
    fails, but it answers with a bare boolean. Its answer is [true]
    exactly when the admission decision of the specification is
    [Accept], and [false] when that decision is a rejection, whatever
    its reason; and its accesses to the stores are those of the checks
    up to the one that fails, in order: none when the proof check or
    the magnitude bound fails, the read of the last action when the
    spacing fails, that and the read of the action count when the
    volume fails, these and the reads of the history when the pattern
    check fails, and all the reads followed by the three writes of
    [recordAction] when the request is accepted. In particular a
    request whose checksum does not match is rejected at the proof
    check, whatever its magnitude, and the answer is [false]. *)
Theorem validateScoreUpdate_decision history cache request now :
  match AdmissionSpec.decision history cache request now with
  | AdmissionSpec.Accept =>
      (validateScoreUpdate history cache request now).1.1 = true
      ∧ (validateScoreUpdate history cache request now).2
        = [GetLastAction; GetActionCount; FindRecentActions; SumScoreChange;
           SetLastAction; IncrActionCount; ExpireActionCount]
  | AdmissionSpec.Reject reason =>
      (validateScoreUpdate history cache request now).1.1 = false
      ∧ match reason with
        | AdmissionSpec.ProofInvalid | AdmissionSpec.MagnitudeExceeded =>
            (validateScoreUpdate history cache request now).2 = []
        | AdmissionSpec.TooFrequent =>
            (validateScoreUpdate history cache request now).2 = [GetLastAction]
        | AdmissionSpec.VolumeExceeded =>
            (validateScoreUpdate history cache request now).2 = [GetLastAction; GetActionCount]
        | AdmissionSpec.PatternSuspicious =>
            (validateScoreUpdate history cache request now).2
            = [GetLastAction; GetActionCount; FindRecentActions]
            ∨ (validateScoreUpdate history cache request now).2
              = [GetLastAction; GetActionCount; FindRecentActions; SumScoreChange]
        end
  end
  ∧ (validateChecksum request = false →
     AdmissionSpec.decision history cache request now = AdmissionSpec.Reject AdmissionSpec.ProofInvalid
     ∧ (validateScoreUpdate history cache request now).1.1 = false).
Proof.
  unfold validateScoreUpdate, AdmissionSpec.decision, AdmissionSpec.proofCheck,
    AdmissionSpec.magnitudeBound, AdmissionSpec.minimumSpacing, AdmissionSpec.hourlyVolume,
    AdmissionSpec.patternCheck, detectSuspiciousPatterns.
  split.
  - destruct (validateChecksum request); simpl; [|done].
    destruct (getLastActionTime cache _ now) as [last|];
      rewrite ?Z.gtb_ltb, ?Z.geb_leb; compare_cases; auto.
  - intros ->. done.
Qed.

Lemma recordAction_last cache request now :
  last_action (recordAction cache request now) !! ValidationRequest.userId request
  = Some (ValidationRequest.timestamp request, Some (now + 3600000)).
Proof. unfold recordAction, Redis.setex. simpl. by rewrite lookup_insert_eq. Qed.

Lemma recordAction_count cache request now :
  action_count (recordAction cache request now) !! ValidationRequest.userId request
  = Some (getActionCount cache (ValidationRequest.userId request) 3600 now + 1,
          Some (now + 3600000)).
Proof.
  unfold recordAction, getActionCount, Redis.get, Redis.expire, Redis.incr. simpl.
  destruct (action_count cache !! ValidationRequest.userId request) as [[count deadline]|] eqn:Hold.
  - destruct (Redis.alive now deadline) eqn:Halive.
    + rewrite lookup_insert_eq, Halive, lookup_insert_eq. done.
    + rewrite lookup_insert_eq. simpl. rewrite lookup_insert_eq. done.
  - rewrite lookup_insert_eq. simpl. rewrite lookup_insert_eq. done.
Qed.

Lemma recordAction_others cache request now other :
  other ≠ ValidationRequest.userId request →
  last_action (recordAction cache request now) !! other = last_action cache !! other
  ∧ action_count (recordAction cache request now) !! other = action_count cache !! other.
Proof.
  intros Hother. unfold recordAction, Redis.setex, Redis.expire, Redis.incr. simpl.
  split; [by rewrite lookup_insert_ne|].
  destruct (action_count cache !! ValidationRequest.userId request) as [[count deadline]|].
  - destruct (Redis.alive now deadline).
    + rewrite lookup_insert_eq.
      destruct (Redis.alive now deadline); by rewrite ?lookup_insert_ne.
    + rewrite lookup_insert_eq. simpl. by rewrite !lookup_insert_ne.
  - rewrite lookup_insert_eq. simpl. by rewrite !lookup_insert_ne.
Qed.

(** C7, as the code has it. The counters of a user are updated by
    an accepted attempt only. When [validateScoreUpdate] answers
    [false] the cache is left as it was: neither the time of the last
    action nor the number of actions is touched, so a rejected attempt
    does not count toward the spacing and volume limits of later
    attempts. When it answers [true] the time of the last action of
    the user becomes the timestamp of the request and the number of
    actions grows by one, both to lapse an hour after the call, and
    the counters of the other users are untouched. *)
Theorem validateScoreUpdate_counters history cache request now :
  ((validateScoreUpdate history cache request now).1.1 = false →
   (validateScoreUpdate history cache request now).1.2 = cache)
  ∧ ((validateScoreUpdate history cache request now).1.1 = true →
     let cache' := (validateScoreUpdate history cache request now).1.2 in
     last_action cache' !! ValidationRequest.userId request
       = Some (ValidationRequest.timestamp request, Some (now + 3600000))
     ∧ action_count cache' !! ValidationRequest.userId request
       = Some (getActionCount cache (ValidationRequest.userId request) 3600 now + 1,
               Some (now + 3600000))
     ∧ ∀ other, other ≠ ValidationRequest.userId request →
         last_action cache' !! other = last_action cache !! other
         ∧ action_count cache' !! other = action_count cache !! other).
Proof.
  unfold validateScoreUpdate.
  destruct (negb (validateChecksum request)); [by split|].
  destruct (_ >? maxScorePerAction config); [by split|].
  destruct (match getLastActionTime cache _ now with Some _ => _ | None => _ end); [by split|].
  destruct (_ >=? maxActionsPerHour config); [by split|].
  destruct (detectSuspiciousPatterns history request now) as [[] reads]; [by split|].
  simpl. split; [done|]. intros _.
  split; [apply recordAction_last|]. split; [apply recordAction_count|].
  intros other Hother. by apply recordAction_others.
Qed.

End admission.

(** ** The leaderboard query *)

Section leaderboard.
Import CacheManager.

#[local] Instance byScoreDesc_trans : Transitive byScoreDesc.
Proof. intros a b c. unfold byScoreDesc. lia. Qed.

#[local] Instance byScoreDesc_total : Total byScoreDesc.
Proof. intros a b. unfold byScoreDesc. lia. Qed.

(** The query always has an answer. *)
Lemma calculateLeaderboard_answers database :
  calculateLeaderboard database (findAllByScoreDesc database).
Proof.
  exists (merge_sort byScoreDesc (scoreRows database)). split_and!.
  - apply merge_sort_Permutation.
  - apply StronglySorted_merge_sort; apply _.
  - reflexivity.
Qed.

(** C9, as the code has it. The leaderboard query orders by the score
    alone: every answer lists at most ten rows of the table, no row
    after one with a smaller score, and a row of the table it leaves
    out scores no more than any row it lists. The query names no
    second key: where two rows tie, either may come first. *)
Theorem calculateLeaderboard_order database result :
  calculateLeaderboard database result →
  StronglySorted byScoreDesc result
  ∧ (length result ≤ 10)%nat
  ∧ (∀ row, row ∈ result → row ∈ scoreRows database)
  ∧ (∀ row listed,
       row ∈ scoreRows database → row ∉ result → listed ∈ result →
       Score.currentScore row ≤ Score.currentScore listed).
Proof.
  intros (rows & Hperm & Hsorted & ->).
  rewrite <- (take_drop 10 rows) in Hsorted.
  apply StronglySorted_app in Hsorted as (Hcross & Hhead & Htail).
  split_and!.
  - done.
  - rewrite length_take. lia.
  - intros row Hrow. rewrite <- Hperm, <- (take_drop 10 rows), elem_of_app. by left.
  - intros row listed Hrow Hout Hlisted.
    rewrite <- Hperm, <- (take_drop 10 rows), elem_of_app in Hrow.
    destruct Hrow as [Hrow|Hrow]; [done|].
    exact (Hcross listed row Hlisted Hrow).
Qed.

End leaderboard.

(** ** The ledger along a sequence of calls *)

Section ledger.
Context `{Platform} {Board Rank : Type} `{LeaderboardService Board Rank}.
Import ScoreService Ledger.

Implicit Types (w : World Board Rank) (request : ScoreUpdateRequest).

Lemma total_nil user : total user [] = 0.
Proof. reflexivity. Qed.

Lemma total_cons user request requests :
  total user (request :: requests)
  = (if bool_decide (userId request = user) then scoreIncrement request else 0)
    + total user requests.
Proof. unfold total. simpl. by case_bool_decide. Qed.

Lemma total_app user requests1 requests2 :
  total user (requests1 ++ requests2) = total user requests1 + total user requests2.
Proof.
  induction requests1 as [|request requests1 IH]; [done|].
  simpl. rewrite !total_cons, IH. lia.
Qed.

(** A spent action cannot be validated again. *)
Lemma spent_refused fault database token actionId user now :
  spent database actionId → fault ≠ Some FindAction →
  validateActionToken fault database token actionId user now
  = Err (Error "Invalid or expired action token").
Proof.
  intros (action & Hrow & Hstatus) Hfault.
  rewrite validateActionToken_fault_elsewhere by done.
  unfold validateActionToken, mbind, Result_bind. rewrite statement_no_fault.
  unfold findPendingAction. rewrite Hrow.
  rewrite (bool_decide_eq_false_2 (Action.status action = pending)) by done.
  by rewrite andb_false_r.
Qed.

(** The effect of a committed update on the ledger. *)
Lemma mutate_ledger fault w request actionToken now action row previous new tx :
  ledger_ok (db w) →
  findPendingAction (db w) (actionId request) (userId request) actionToken = Some action →
  mutate fault (db w) (board w) request action now = Ok (tx, row, previous, new) →
  ledger_ok tx
  ∧ ¬ spent (db w) (actionId request)
  ∧ spent tx (actionId request)
  ∧ (∀ id, spent (db w) id → spent tx id)
  ∧ ScoreHistory.actionId <$> ScoreHistories tx
    = (ScoreHistory.actionId <$> ScoreHistories (db w)) ++ [actionId request]
  ∧ posting <$> ScoreHistories tx
    = (posting <$> ScoreHistories (db w)) ++ [delta request]
  ∧ (∀ user row, Scores (db w) !! user = Some row →
       ∃ row', Scores tx !! user = Some row'
               ∧ Score.currentScore row' = Score.currentScore row + total user [request]).
Proof.
  intros (Hkeyed & Hnodup & Hrows) Hfound Hmutate.
  apply findPendingAction_Some in Hfound as (Haction & _ & _ & Hpending).
  pose proof (Hkeyed _ _ Haction) as Hid.
  apply mutate_Ok in Hmutate
    as (Hcurrent & _ & Hnew & Hafter & Hothers & Hhistory & Hactions).
  rewrite Hid in Hactions.
  assert (¬ spent (db w) (actionId request)) as Hfresh.
  { intros (action' & Haction' & Hstatus). congruence. }
  assert (∀ id, spent (db w) id → spent tx id) as Hmono.
  { intros id (action' & Haction' & Hstatus). unfold spent. rewrite Hactions.
    destruct (decide (actionId request = id)) as [<-|Hne].
    - rewrite lookup_insert_eq. by eexists.
    - rewrite lookup_insert_ne by done. by eexists. }
  assert (spent tx (actionId request)) as Hspent.
  { unfold spent. rewrite Hactions, lookup_insert_eq. by eexists. }
  split_and!; try done.
  - split_and!.
    + intros key action'. rewrite Hactions.
      destruct (decide (actionId request = key)) as [<-|Hne].
      * rewrite lookup_insert_eq. by intros [= <-].
      * rewrite lookup_insert_ne by done. apply Hkeyed.
    + rewrite Hhistory, fmap_app. simpl. apply NoDup_app. split_and!.
      * done.
      * intros id Hin Hin'. apply list_elem_of_singleton in Hin' as ->.
        apply list_elem_of_fmap in Hin as (row' & Hrow & Hin).
        apply Hfresh. rewrite Hrow. by apply Hrows.
      * apply NoDup_singleton.
    + intros row'. rewrite Hhistory, elem_of_app, list_elem_of_singleton.
      intros [Hin| ->]; [by apply Hmono, Hrows|done].
  - by rewrite Hhistory, fmap_app.
  - by rewrite Hhistory, fmap_app.
  - intros user row' Hrow. rewrite total_cons, total_nil.
    case_bool_decide as Huser.
    + subst user. eexists. split; [done|]. simpl. rewrite Hnew.
      assert (row = row') as -> by congruence. lia.
    + exists row'. rewrite Hothers by done. split; [done|lia].
Qed.

(** Issuing a token leaves the ledger in order. *)
Lemma generateActionToken_ledger fault w user kind actionId token now :
  let w' := (generateActionToken fault w user kind actionId token now).2 in
  (ledger_ok (db w) → ledger_ok (db w'))
  ∧ (∀ id, spent (db w) id → spent (db w') id)
  ∧ ScoreHistories (db w') = ScoreHistories (db w)
  ∧ Scores (db w') = Scores (db w).
Proof.
  unfold generateActionToken.
  destruct (faulty fault CreateAction || _) eqn:Hrefused; simpl; [done|].
  apply orb_false_elim in Hrefused as [_ Hfresh].
  apply bool_decide_eq_false_1 in Hfresh.
  assert (Actions (db w) !! actionId = None) as Hnone.
  { destruct (Actions (db w) !! actionId) eqn:E; [|done]. destruct Hfresh. by eexists. }
  assert (∀ id, spent (db w) id →
            spent {| Actions := <[actionId :=
                        {| Action.id := actionId; Action.userId := user;
                           Action.actionType := kind; Action.status := pending;
                           Action.token := token; Action.createdAt := now;
                           Action.expiresAt := now + 300000;
                           Action.completedAt := None |}]> (Actions (db w));
                     Scores := Scores (db w);
                     ScoreHistories := ScoreHistories (db w) |} id) as Hmono.
  { intros id (action & Haction & Hstatus). exists action. simpl.
    rewrite lookup_insert_ne by congruence. done. }
  split_and!; try done.
  intros (Hkeyed & Hnodup & Hrows). split_and!; simpl.
  - intros key action. simpl.
    destruct (decide (actionId = key)) as [<-|Hne].
    + rewrite lookup_insert_eq. by intros [= <-].
    + rewrite lookup_insert_ne by done. apply Hkeyed.
  - done.
  - intros row Hrow. by apply Hmono, Hrows.
Qed.

(** The effect of one call on the ledger: [committed] is the request
    of the call when its transaction is committed. *)
Lemma perform_ledger w call :
  ledger_ok (db w) →
  ∃ committed : option ScoreUpdateRequest,
    (∀ request, (perform w call).2 = Some request → committed = Some request)
    ∧ (quiet call → committed = (perform w call).2)
    ∧ ledger_ok (db (perform w call).1)
    ∧ (∀ id, spent (db w) id → spent (db (perform w call).1) id)
    ∧ (∀ request, committed = Some request →
         ¬ spent (db w) (actionId request) ∧ spent (db (perform w call).1) (actionId request))
    ∧ ScoreHistory.actionId <$> ScoreHistories (db (perform w call).1)
      = (ScoreHistory.actionId <$> ScoreHistories (db w)) ++ (actionId <$> option_list committed)
    ∧ posting <$> ScoreHistories (db (perform w call).1)
      = (posting <$> ScoreHistories (db w)) ++ (delta <$> option_list committed)
    ∧ (∀ user row, Scores (db w) !! user = Some row →
         ∃ row', Scores (db (perform w call).1) !! user = Some row'
                 ∧ Score.currentScore row'
                   = Score.currentScore row + total user (option_list committed)).
Proof.
  intros Hok.
  assert (∀ w', db w' = db w →
            ledger_ok (db w')
            ∧ (∀ id, spent (db w) id → spent (db w') id)
            ∧ (∀ request, @None ScoreUpdateRequest = Some request →
                 ¬ spent (db w) (actionId request) ∧ spent (db w') (actionId request))
            ∧ ScoreHistory.actionId <$> ScoreHistories (db w')
              = (ScoreHistory.actionId <$> ScoreHistories (db w)) ++ (actionId <$> [])
            ∧ posting <$> ScoreHistories (db w')
              = (posting <$> ScoreHistories (db w)) ++ (delta <$> [])
            ∧ (∀ user row, Scores (db w) !! user = Some row →
                 ∃ row', Scores (db w') !! user = Some row'
                         ∧ Score.currentScore row' = Score.currentScore row + total user []))
    as Hsame.
  { intros w' ->. rewrite !app_nil_r. split_and!; try done.
    intros user row Hrow. exists row. rewrite total_nil. split; [done|lia]. }
  destruct call as [fault user kind id token now|fault request token now]; simpl.
  - exists None.
    destruct (generateActionToken_ledger fault w user kind id token now)
      as (Hledger & Hmono & Hhistory & Hscores).
    simpl in *. rewrite Hhistory, Hscores, !app_nil_r.
    split_and!; try done; [by apply Hledger|].
    intros owner row Hrow. exists row. rewrite total_nil. split; [done|lia].
  - destruct (updateScore_cases fault w request token now)
      as [(e & Herr & Hdb & _)
         |(action & row & cache & previous & new & _ & Hfound & _ & _ & Hmutate & _ & Hend)].
    + exists None.
      destruct (updateScore fault w request token now) as [res w1]. simpl in *. subst res.
      simpl. split; [done|]. split; [done|]. by apply Hsame.
    + exists (Some request).
      destruct (mutate_ledger _ _ _ _ _ _ _ _ _ _ Hok Hfound Hmutate)
        as (Hledger & Hfresh & Hspent & Hmono & Hids & Hpostings & Hscores).
      destruct (updateScore fault w request token now) as [res w1]. simpl in *.
      destruct Hend as [[r ->]|(-> & _ & Hfault)]; simpl.
      * split_and!; try done. by intros ? [= <-].
      * split_and!; try done.
        -- intros [Hboard Hpublish]. by destruct Hfault.
        -- by intros ? [= <-].
Qed.

(** The effect of a sequence of calls on the ledger: [committed] are
    the requests whose transactions are committed, in the order of
    their commits. *)
Lemma run_ledger calls : ∀ w,
  ledger_ok (db w) →
  ∃ committed : list ScoreUpdateRequest,
    sublist (run w calls).2 committed
    ∧ (Forall quiet calls → committed = (run w calls).2)
    ∧ ledger_ok (db (run w calls).1)
    ∧ (∀ id, spent (db w) id → spent (db (run w calls).1) id)
    ∧ (∀ request, request ∈ committed →
         ¬ spent (db w) (actionId request) ∧ spent (db (run w calls).1) (actionId request))
    ∧ ScoreHistory.actionId <$> ScoreHistories (db (run w calls).1)
      = (ScoreHistory.actionId <$> ScoreHistories (db w)) ++ (actionId <$> committed)
    ∧ posting <$> ScoreHistories (db (run w calls).1)
      = (posting <$> ScoreHistories (db w)) ++ (delta <$> committed)
    ∧ (∀ user row, Scores (db w) !! user = Some row →
         ∃ row', Scores (db (run w calls).1) !! user = Some row'
                 ∧ Score.currentScore row' = Score.currentScore row + total user committed).
Proof.
  induction calls as [|call calls IH]; intros w Hok.
  - exists []. simpl. rewrite !app_nil_r. split_and!; try done.
    + intros request Hin. by apply elem_of_nil in Hin.
    + intros user row Hrow. exists row. rewrite total_nil. split; [done|lia].
  - destruct (perform_ledger w call Hok)
      as (first & Haccepted1 & Hquiet1 & Hok1 & Hmono1 & Hfirst1 & Hids1 & Hpost1 & Hscores1).
    destruct (IH _ Hok1)
      as (rest & Haccepted2 & Hquiet2 & Hok2 & Hmono2 & Hrest2 & Hids2 & Hpost2 & Hscores2).
    exists (option_list first ++ rest).
    cbn [run]. destruct (perform w call) as [w1 accepted1]. cbn [fst snd] in *.
    destruct (run w1 calls) as [w2 accepted2]. cbn [fst snd] in *.
    split_and!.
    + apply sublist_app; [|done].
      destruct accepted1 as [request|]; [|apply sublist_nil_l].
      by rewrite (Haccepted1 _ eq_refl).
    + intros Hquiet. apply Forall_cons in Hquiet as [Hcall Hcalls].
      by rewrite Hquiet1, Hquiet2.
    + done.
    + intros id Hid. by apply Hmono2, Hmono1.
    + intros request. rewrite elem_of_app. intros [Hin|Hin].
      * destruct first as [request'|]; [|by apply elem_of_nil in Hin].
        apply list_elem_of_singleton in Hin as ->.
        destruct (Hfirst1 _ eq_refl) as [Hfresh Hspent]. split; [done|by apply Hmono2].
      * destruct (Hrest2 _ Hin) as [Hfresh Hspent]. split; [|done].
        intros Hspent0. by apply Hfresh, Hmono1.
    + by rewrite Hids2, Hids1, fmap_app, app_assoc.
    + by rewrite Hpost2, Hpost1, fmap_app, app_assoc.
    + intros user row Hrow.
      destruct (Hscores1 _ _ Hrow) as (row1 & Hrow1 & Hscore1).
      destruct (Hscores2 _ _ Hrow1) as (row2 & Hrow2 & Hscore2).
      exists row2. split; [done|]. rewrite total_app. lia.
Qed.

(** Spent actions stay spent, whatever the state of the ledger. *)
Lemma perform_world w fault request actionToken now :
  (perform w (UpdateScore fault request actionToken now)).1
  = (updateScore fault w request actionToken now).2.
Proof. simpl. by destruct (updateScore fault w request actionToken now) as [[r|e] w1]. Qed.

Lemma perform_accepted_eq w fault request actionToken now :
  (perform w (UpdateScore fault request actionToken now)).2
  = match (updateScore fault w request actionToken now).1 with
    | Ok _ => Some request
    | Err _ => None
    end.
Proof. simpl. by destruct (updateScore fault w request actionToken now) as [[r|e] w1]. Qed.

Lemma perform_spent w call id :
  spent (db w) id → spent (db (perform w call).1) id.
Proof.
  intros Hspent. destruct call as [fault user kind id' token now|fault request token now].
  - by apply generateActionToken_ledger.
  - rewrite perform_world.
    destruct (updateScore_cases fault w request token now)
      as [(e & _ & -> & _)
         |(action & row & cache & previous & new & _ & _ & _ & _ & Hmutate & _)]; [done|].
    apply mutate_Ok in Hmutate as (_ & _ & _ & _ & _ & _ & Hactions).
    destruct Hspent as (action' & Haction' & Hstatus). unfold spent. rewrite Hactions.
    destruct (decide (Action.id action = id)) as [<-|Hne].
    + rewrite lookup_insert_eq. by eexists.
    + rewrite lookup_insert_ne by done. by eexists.
Qed.

Lemma perform_accepted w call w' request :
  perform w call = (w', Some request) → ¬ spent (db w) (actionId request).
Proof.
  destruct call as [fault user kind id' token now|fault request' token now]; simpl; [done|].
  destruct (updateScore fault w request' token now) as [[r|e] w1] eqn:Hcall; [|done].
  intros [= <- <-].
  apply updateScore_Ok in Hcall as (action & current & cache & _ & Hfound & _).
  apply findPendingAction_Some in Hfound as (Haction & _ & _ & Hpending).
  intros (action' & Haction' & Hstatus). congruence.
Qed.

Lemma run_spent calls : ∀ w id,
  spent (db w) id →
  spent (db (run w calls).1) id ∧ ∀ request, request ∈ (run w calls).2 → actionId request ≠ id.
Proof.
  induction calls as [|call calls IH]; intros w id Hspent; simpl.
  - split; [done|]. intros request Hin. by apply elem_of_nil in Hin.
  - destruct (perform w call) as [w1 first] eqn:Hfirst.
    pose proof (perform_spent w call id Hspent) as Hspent1. rewrite Hfirst in Hspent1.
    destruct (IH w1 id Hspent1) as [Hspent2 Hrest].
    destruct (run w1 calls) as [w2 rest]. simpl in *. split; [done|].
    intros request. rewrite elem_of_app. intros [Hin|Hin]; [|by apply Hrest].
    destruct first as [request'|]; [|by apply elem_of_nil in Hin].
    apply list_elem_of_singleton in Hin as ->.
    apply perform_accepted in Hfirst. by intros <-.
Qed.

(** ** Single use of a token *)

(** C3, as the code has it. Once [updateScore] has accepted a request
    for an action, no later call for that action is accepted, whatever
    calls come in between, at whatever instant and with whatever
    secret: none of the calls in between is accepted for it, and a
    further call for it ends in an error and leaves the database as it
    is. Unless the store conflicts on the lookup, that error is the
    one error of the token validation, [Invalid or expired action
    token], the same that an unknown or an expired token gets: the
    code has no error of its own for a token already consumed. *)
Theorem updateScore_single_use fault w request actionToken now r w1
    calls fault' request' actionToken' now' :
  keyed (db w) →
  updateScore fault w request actionToken now = (Ok r, w1) →
  actionId request' = actionId request →
  let w2 := (run w1 calls).1 in
  (∀ other, other ∈ (run w1 calls).2 → actionId other ≠ actionId request)
  ∧ (∃ e, (updateScore fault' w2 request' actionToken' now').1 = Err e)
  ∧ db (updateScore fault' w2 request' actionToken' now').2 = db w2
  ∧ (fault' ≠ Some FindAction →
     (updateScore fault' w2 request' actionToken' now').1
     = Err (Error "Invalid or expired action token")).
Proof.
  intros Hkeyed Hcall Hsame w2.
  assert (spent (db w1) (actionId request)) as Hspent1.
  { apply updateScore_Ok in Hcall as (action & current & cache & _ & Hfound & _ & _ & Hmutate & _).
    apply findPendingAction_Some in Hfound as (Haction & _).
    apply mutate_Ok in Hmutate as (_ & _ & _ & _ & _ & _ & Hactions).
    unfold spent. rewrite Hactions, (Hkeyed _ _ Haction), lookup_insert_eq. by eexists. }
  destruct (run_spent calls w1 _ Hspent1) as [Hspent2 Hbetween]. fold w2 in Hspent2.
  assert (fault' ≠ Some FindAction →
          (updateScore fault' w2 request' actionToken' now').1
          = Err (Error "Invalid or expired action token")) as Hgeneric.
  { intros Hfault. unfold updateScore.
    rewrite Hsame, spent_refused by done. done. }
  assert (∃ e, (updateScore fault' w2 request' actionToken' now').1 = Err e) as [e He].
  { destruct (decide (fault' = Some FindAction)) as [->|Hfault].
    - unfold updateScore. rewrite validateActionToken_faulty. by eexists.
    - rewrite Hgeneric by done. by eexists. }
  split_and!; try done.
  - by eexists.
  - destruct (decide (fault' = Some FindAction)) as [->|Hfault].
    + by rewrite (updateScore_refused _ _ _ _ _ _ (validateActionToken_faulty _ _ _ _ _)).
    + rewrite (updateScore_refused fault' w2 request' actionToken' now'
                 (Error "Invalid or expired action token")); [done|].
      rewrite Hsame. by apply spent_refused.
Qed.

(** ** Conservation *)

(** X1. Conservation for calls that run one after the other. Start
    from a ledger in order and run any sequence of calls, each to its
    end before the next, whatever fails in them and wherever. Then
    there are the requests whose transactions were committed, in the
    order of their commits: among them, in order, the requests of the
    calls that returned, and no other when no call failed after its
    commit. The score of every user is the score before the run plus
    the sum of the increments of the committed requests of that user;
    the history rows written during the run are, in order, exactly the
    postings of the committed requests, one row each; no two committed
    requests name the same action and no two history rows do; and the
    action of every committed request is spent. *)
Theorem run_conservation w calls :
  ledger_ok (db w) →
  ∃ committed : list ScoreUpdateRequest,
    sublist (run w calls).2 committed
    ∧ (Forall quiet calls → committed = (run w calls).2)
    ∧ (∀ user row, Scores (db w) !! user = Some row →
         ∃ row', Scores (db (run w calls).1) !! user = Some row'
                 ∧ Score.currentScore row' = Score.currentScore row + total user committed)
    ∧ posting <$> ScoreHistories (db (run w calls).1)
      = (posting <$> ScoreHistories (db w)) ++ (delta <$> committed)
    ∧ NoDup (actionId <$> committed)
    ∧ NoDup (ScoreHistory.actionId <$> ScoreHistories (db (run w calls).1))
    ∧ (∀ request, request ∈ committed → spent (db (run w calls).1) (actionId request)).
Proof.
  intros Hok.
  destruct (run_ledger calls w Hok)
    as (committed & Haccepted & Hquiet & (_ & Hnodup & _) & _ & Hcommitted
        & Hids & Hpostings & Hscores).
  exists committed. split_and!; try done.
  - rewrite Hids in Hnodup. by apply NoDup_app in Hnodup as (_ & _ & Hnodup).
  - intros request Hin. by apply Hcommitted.
Qed.

End ledger.

(** ** Calls that overlap *)

Section interleaving.
Context `{Platform} {Board Rank : Type} `{LeaderboardService Board Rank}.
Import ScoreService Interleaving.

Lemma mutate_no_fault tx leaderboard request action now :
  mutate None tx leaderboard request action now
  = match Scores tx !! userId request with
    | None => Err (Error "User score not found")
    | Some currentScore =>
        Ok ({| Actions :=
                 <[Action.id action :=
                     {| Action.id := Action.id action;
                        Action.userId := Action.userId action;
                        Action.actionType := Action.actionType action;
                        Action.status := completed;
                        Action.token := Action.token action;
                        Action.createdAt := Action.createdAt action;
                        Action.expiresAt := Action.expiresAt action;
                        Action.completedAt := Some now |}]> (Actions tx);
               Scores :=
                 <[userId request :=
                     {| Score.id := Score.id currentScore;
                        Score.userId := Score.userId currentScore;
                        Score.currentScore := Score.currentScore currentScore + scoreIncrement request;
                        Score.totalActions := Score.totalActions currentScore + 1;
                        Score.lastUpdated := now;
                        Score.username := Score.username currentScore |}]> (Scores tx);
               ScoreHistories :=
                 ScoreHistories tx ++
                   [ {| ScoreHistory.userId := userId request;
                        ScoreHistory.actionId := actionId request;
                        ScoreHistory.scoreChange := scoreIncrement request;
                        ScoreHistory.previousScore := Score.currentScore currentScore;
                        ScoreHistory.newScore := Score.currentScore currentScore + scoreIncrement request;
                        ScoreHistory.timestamp := timestamp request;
                        ScoreHistory.metadata := metadata request |} ] |},
            currentScore,
            getUserRank leaderboard (userId request),
            Score.currentScore currentScore + scoreIncrement request)
    end.
Proof.
  unfold mutate, mbind, Result_bind. rewrite statement_no_fault.
  destruct (Scores tx !! userId request); reflexivity.
Qed.

Lemma step_alone (w : World Board Rank) (session : Session Rank) :
  step {| world := w; sessions := [session] |} 0
  = match advance w [session] session with
    | Some (w', next) =>
        {| world := w';
           sessions := [ {| request := request session; actionToken := actionToken session;
                            now := now session; stage := next |} ] |}
    | None => {| world := w; sessions := [session] |}
    end.
Proof. reflexivity. Qed.

(** A call that runs alone, from its first statement to its return,
    does what [updateScore] does. *)
Lemma exec_alone (w : World Board Rank) (request : ScoreUpdateRequest) (actionToken : string) (now : Z) :
  exec {| world := w;
          sessions := [ {| request := request; actionToken := actionToken;
                           now := now; stage := Begun |} ] |}
       [0; 0; 0; 0; 0]%nat
  = {| world := (updateScore None w request actionToken now).2;
       sessions := [ {| request := request; actionToken := actionToken; now := now;
                        stage := Returned (updateScore None w request actionToken now).1 |} ] |}.
Proof.
  unfold updateScore, exec. simpl foldl.
  rewrite step_alone. unfold advance at 1. simpl.
  destruct (validateActionToken None (db w) actionToken (actionId request) (userId request) now)
    as [action|e]; [|by destruct w].
  rewrite step_alone. unfold advance at 1. simpl.
  destruct (AntiCheatService.validateScoreUpdate _ _ _ _) as [[[] cache] accesses]; simpl; [|done].
  rewrite mutate_no_fault.
  rewrite step_alone. unfold advance at 1. simpl.
  destruct (Scores (db w) !! userId request) as [currentScore|]; [|done].
  rewrite step_alone. unfold advance at 1. simpl.
  rewrite step_alone. unfold advance at 1. simpl.
  destruct (updateUserScore _ _ _). done.
Qed.

(** *** The score under every schedule *)

Lemma committedTotal_insert user (all : list (Session Rank)) i old new :
  all !! i = Some old →
  committedTotal user (<[i := new]> all)
  = committedTotal user all - contribution user old + contribution user new.
Proof.
  revert i. induction all as [|session all IH]; intros [|i]; simpl; try done.
  - intros [= ->]. lia.
  - intros Hold. rewrite (IH _ Hold). lia.
Qed.

Lemma locked_false user (all : list (Session Rank)) i session :
  locked user all = false → all !! i = Some session → holdsLock user session = false.
Proof.
  unfold locked. intros Hnone Hi.
  destruct (holdsLock user session) eqn:Hholds; [|done].
  assert (existsb (holdsLock user) all = true) as Hsome; [|congruence].
  apply existsb_exists. exists session. split; [|done].
  apply list_elem_of_In, list_elem_of_lookup. by exists i.
Qed.

Lemma holdsLock_RowLocked user (session : Session Rank) :
  holdsLock user session = true →
  ∃ action row previous,
    stage session = RowLocked action row previous ∧ userId (request session) = user.
Proof.
  unfold holdsLock. destruct (stage session); try done.
  intros Huser%bool_decide_eq_true. by eexists _, _, _.
Qed.

(** A session that moves without touching the scores and ends up
    neither holding a lock nor newly committed keeps the scores
    consistent. *)
Lemma consistent_quiet base (c : Config Board Rank) i session (w : World Board Rank) next :
  consistent base c →
  sessions c !! i = Some session →
  Scores (db w) = Scores (db (world c)) →
  (∀ action row previous, next ≠ RowLocked action row previous) →
  hasCommitted {| request := request session; actionToken := actionToken session;
                  now := now session; stage := next |} = hasCommitted session →
  consistent base
    {| world := w;
       sessions := <[i := {| request := request session; actionToken := actionToken session;
                             now := now session; stage := next |}]> (sessions c) |}.
Proof.
  intros (Hrows & Hlocks & Hscores) Hi Hsame Hnext Hcommitted.
  split_and!; simpl.
  - intros j sj action row previous Hj Hstage. rewrite Hsame.
    apply list_lookup_insert_Some in Hj as [(<- & <- & _)|[Hne Hj]].
    + simpl in Hstage. by destruct (Hnext action row previous).
    + by eapply Hrows.
  - intros user j k sj sk Hj Hk Hholdsj Hholdsk.
    apply list_lookup_insert_Some in Hj as [(<- & <- & _)|[Hnej Hj]].
    { apply holdsLock_RowLocked in Hholdsj as (a & r & p & Hstage & _).
      simpl in Hstage. by destruct (Hnext a r p). }
    apply list_lookup_insert_Some in Hk as [(<- & <- & _)|[Hnek Hk]].
    { apply holdsLock_RowLocked in Hholdsk as (a & r & p & Hstage & _).
      simpl in Hstage. by destruct (Hnext a r p). }
    by eapply Hlocks.
  - intros user row Hbase. destruct (Hscores user row Hbase) as (row' & Hrow' & Hsum).
    exists row'. rewrite Hsame. split; [done|].
    rewrite (committedTotal_insert _ _ _ session) by done.
    unfold contribution. simpl. rewrite Hcommitted. lia.
Qed.

Lemma consistent_lock base (c : Config Board Rank) i session action row :
  consistent base c →
  sessions c !! i = Some session →
  stage session = Cleared action →
  locked (userId (request session)) (sessions c) = false →
  Scores (db (world c)) !! userId (request session) = Some row →
  consistent base
    {| world := world c;
       sessions :=
         <[i := {| request := request session; actionToken := actionToken session;
                   now := now session;
                   stage := RowLocked action row
                              (getUserRank (board (world c)) (userId (request session))) |}]>
           (sessions c) |}.
Proof.
  intros (Hrows & Hlocks & Hscores) Hi Hstage Hfree Hrow.
  split_and!; simpl.
  - intros j sj action' row' previous Hj Hstagej.
    apply list_lookup_insert_Some in Hj as [(<- & <- & _)|[Hne Hj]].
    + simpl in *. congruence.
    + by eapply Hrows.
  - intros user j k sj sk Hj Hk Hholdsj Hholdsk.
    apply list_lookup_insert_Some in Hj as [(<- & <- & _)|[Hnej Hj]];
      apply list_lookup_insert_Some in Hk as [(<- & <- & _)|[Hnek Hk]].
    + done.
    + apply holdsLock_RowLocked in Hholdsj as (_ & _ & _ & _ & <-). simpl in *.
      by rewrite (locked_false _ _ _ _ Hfree Hk) in Hholdsk.
    + apply holdsLock_RowLocked in Hholdsk as (_ & _ & _ & _ & <-). simpl in *.
      by rewrite (locked_false _ _ _ _ Hfree Hj) in Hholdsj.
    + by eapply Hlocks.
  - intros user row0 Hbase. destruct (Hscores user row0 Hbase) as (row' & Hrow' & Hsum).
    exists row'. split; [done|].
    rewrite (committedTotal_insert _ _ _ session) by done.
    unfold contribution, hasCommitted. simpl. rewrite Hstage. simpl. lia.
Qed.

Lemma consistent_commit base (c : Config Board Rank) i session action row previous actions history
    redis' (board' : Board) queue' :
  consistent base c →
  sessions c !! i = Some session →
  stage session = RowLocked action row previous →
  consistent base
    {| world :=
         {| db :=
              {| Actions := actions;
                 Scores :=
                   <[userId (request session) :=
                       {| Score.id := Score.id row;
                          Score.userId := Score.userId row;
                          Score.currentScore := Score.currentScore row + scoreIncrement (request session);
                          Score.totalActions := Score.totalActions row + 1;
                          Score.lastUpdated := now session;
                          Score.username := Score.username row |}]> (Scores (db (world c)));
                 ScoreHistories := history |};
            redis := redis'; board := board'; queue := queue' |};
       sessions :=
         <[i := {| request := request session; actionToken := actionToken session;
                   now := now session;
                   stage := Committed row previous
                              (Score.currentScore row + scoreIncrement (request session)) |}]>
           (sessions c) |}.
Proof.
  intros (Hrows & Hlocks & Hscores) Hi Hstage.
  assert (holdsLock (userId (request session)) session = true) as Hheld.
  { unfold holdsLock. rewrite Hstage. by apply bool_decide_eq_true. }
  split_and!; simpl.
  - intros j sj action' row' previous' Hj Hstagej.
    apply list_lookup_insert_Some in Hj as [(<- & <- & _)|[Hne Hj]]; [done|].
    destruct (decide (userId (request session) = userId (request sj))) as [Hsame|Hother].
    + destruct Hne. apply (Hlocks (userId (request session)) i j session sj); try done.
      unfold holdsLock. rewrite Hstagej. by apply bool_decide_eq_true.
    + rewrite lookup_insert_ne by done. by eapply Hrows.
  - intros user j k sj sk Hj Hk Hholdsj Hholdsk.
    apply list_lookup_insert_Some in Hj as [(<- & <- & _)|[Hnej Hj]]; [done|].
    apply list_lookup_insert_Some in Hk as [(<- & <- & _)|[Hnek Hk]]; [done|].
    by eapply Hlocks.
  - intros user row0 Hbase. destruct (Hscores user row0 Hbase) as (row' & Hrow' & Hsum).
    rewrite (committedTotal_insert _ _ _ session) by done.
    unfold contribution, hasCommitted. simpl. rewrite Hstage. simpl.
    case_bool_decide as Huser.
    + subst user. rewrite lookup_insert_eq. eexists. split; [done|]. simpl.
      rewrite (Hrows _ _ _ _ _ Hi Hstage) in Hrow'. injection Hrow' as <-. lia.
    + rewrite lookup_insert_ne by done. exists row'. split; [done|lia].
Qed.

(** Every step of the scheduler keeps the scores consistent. *)
Lemma step_consistent base (c : Config Board Rank) i :
  consistent base c → consistent base (step c i).
Proof.
  intros Hc. unfold step.
  destruct (sessions c !! i) as [session|] eqn:Hi; [|done].
  destruct (advance (world c) (sessions c) session) as [[w next]|] eqn:Hmove; [|done].
  unfold advance in Hmove.
  destruct (stage session) as [|action|action|action row previous|row previous new|result] eqn:Hstage.
  - destruct (validateActionToken _ _ _ _ _ _); injection Hmove as <- <-;
      (apply consistent_quiet; [done..| |]; [done|unfold hasCommitted; simpl; by rewrite Hstage]).
  - destruct (AntiCheatService.validateScoreUpdate _ _ _ _) as [[[] cache] accesses]; simpl in Hmove;
      injection Hmove as <- <-;
      (apply consistent_quiet; [done..| |]; [done|unfold hasCommitted; simpl; by rewrite Hstage]).
  - destruct (locked _ _) eqn:Hfree; [done|].
    destruct (Scores (db (world c)) !! userId (request session)) as [row|] eqn:Hrow;
      injection Hmove as <- <-.
    + by apply consistent_lock.
    + apply consistent_quiet; [done..| |]; [done|unfold hasCommitted; simpl; by rewrite Hstage].
  - injection Hmove as <- <-. by eapply consistent_commit.
  - destruct (updateUserScore _ _ _) as [leaderboard newRank]. injection Hmove as <- <-.
    apply consistent_quiet; [done..| |]; [done|unfold hasCommitted; simpl; by rewrite Hstage].
  - done.
Qed.

Lemma committedTotal_begun user (all : list (Session Rank)) :
  Forall (fun session => stage session = Begun) all → committedTotal user all = 0.
Proof.
  induction 1 as [|session all Hbegun _ IH]; [done|].
  simpl. unfold contribution, hasCommitted. rewrite Hbegun, IH. done.
Qed.

(** X2. Whatever the schedule, the scores are conserved: if all the
    calls are at their beginning, then at every moment of their run the
    score of a user is its score at the beginning plus the sum of the
    increments of the calls of this user whose transaction is
    committed. The row lock of [Score.findOne] sees to it that no
    committed increment is lost and none is added twice. *)
Theorem exec_conservation (c : Config Board Rank) (schedule : list nat) user row :
  Forall (fun session => stage session = Begun) (sessions c) →
  Scores (db (world c)) !! user = Some row →
  ∃ row', Scores (db (world (exec c schedule))) !! user = Some row'
          ∧ Score.currentScore row'
            = Score.currentScore row + committedTotal user (sessions (exec c schedule)).
Proof.
  intros Hbegun Hrow.
  assert (consistent (Scores (db (world c))) c) as Hstart.
  { split_and!.
    - intros i session action row0 previous Hi Hstage.
      apply (Forall_lookup_1 _ _ _ _ Hbegun) in Hi. congruence.
    - intros u i j si sj Hi _ Hheld. apply (Forall_lookup_1 _ _ _ _ Hbegun) in Hi.
      unfold holdsLock in Hheld. by rewrite Hi in Hheld.
    - intros u row0 Hu. exists row0. rewrite committedTotal_begun by done. split; [done|lia]. }
  assert (∀ c', consistent (Scores (db (world c))) c' →
                consistent (Scores (db (world c))) (exec c' schedule)) as Hrun.
  { unfold exec. induction schedule as [|i schedule IH]; intros c' Hc'; simpl; [done|].
    by apply IH, step_consistent. }
  destruct (Hrun c Hstart) as (_ & _ & Hscores). by apply Hscores.
Qed.

End interleaving.

(** * The properties on the concrete installation *)

Section examples.
Import ScoreService.

(** C1. Two calls with one token that overlap are both accepted. Both
    validate the token before either commits; the row lock then puts
    their updates of the score one after the other, so each adds its
    50 points, and the history ends with two rows for the one action:
    the token is used twice. The schedule lets the first call run up
    to its validation, then the second, then each through the
    anti-cheat checks, then the first to its return, then the
    second. *)
Theorem overlapping_calls_reuse_token :
  let c := Interleaving.exec Demo.twoCalls [0; 1; 0; 1; 0; 0; 0; 1; 1; 1]%nat in
  Interleaving.results c
  = [ Some (Ok {| success := true; newScore := 150; rank := Some 1; previousRank := Some 1 |});
      Some (Ok {| success := true; newScore := 200; rank := Some 1; previousRank := Some 1 |}) ]
  ∧ ScoreHistory.actionId <$> ScoreHistories (db (Interleaving.world c)) = ["act-1"; "act-1"]
  ∧ ¬ NoDup (ScoreHistory.actionId <$> ScoreHistories (db (Interleaving.world c)))
  ∧ Score.currentScore <$> Scores (db (Interleaving.world c)) !! "alice" = Some 200.
Proof.
  assert (ScoreHistory.actionId <$>
            ScoreHistories (db (Interleaving.world
              (Interleaving.exec Demo.twoCalls [0; 1; 0; 1; 0; 0; 0; 1; 1; 1]%nat)))
          = ["act-1"; "act-1"]) as Hids by (vm_compute; reflexivity).
  cbv zeta. rewrite Hids. split_and!.
  - vm_compute. reflexivity.
  - reflexivity.
  - intros Hnodup. apply NoDup_cons in Hnodup as [Hnotin _].
    apply Hnotin. apply list_elem_of_singleton. reflexivity.
  - vm_compute. reflexivity.
Qed.

(** The same two calls one after the other: the second is refused. *)
Example serial_calls_use_token_once :
  let c := Interleaving.exec Demo.twoCalls [0; 0; 0; 0; 0; 1; 1; 1; 1; 1]%nat in
  Interleaving.results c
  = [ Some (Ok {| success := true; newScore := 150; rank := Some 1; previousRank := Some 1 |});
      Some (Err (Error "Invalid or expired action token")) ]
  ∧ ScoreHistory.actionId <$> ScoreHistories (db (Interleaving.world c)) = ["act-1"].
Proof. vm_compute. split; reflexivity. Qed.

Lemma world0_ledger_ok : Ledger.ledger_ok (db Demo.world0).
Proof.
  split_and!.
  - intros key action Hrow. simpl in Hrow. by rewrite lookup_empty in Hrow.
  - apply NoDup_nil_2.
  - intros row Hrow. by apply elem_of_nil in Hrow.
Qed.

Lemma world1_ledger_ok : Ledger.ledger_ok (db Demo.world1).
Proof.
  apply (generateActionToken_ledger None Demo.world0 "alice" "quest" "act-1" "tok-1" 1000).
  apply world0_ledger_ok.
Qed.

(** *** C2 *)

Lemma updateScore_failure_aborts_witness :
  ∃ e, (updateScore (Some Commit) Demo.world1 (Demo.request 50 2000) "tok-1" 2000).1 = Err e
       ∧ db (updateScore (Some Commit) Demo.world1 (Demo.request 50 2000) "tok-1" 2000).2
         = db Demo.world1
       ∧ board (updateScore (Some Commit) Demo.world1 (Demo.request 50 2000) "tok-1" 2000).2
         = board Demo.world1
       ∧ queue (updateScore (Some Commit) Demo.world1 (Demo.request 50 2000) "tok-1" 2000).2
         = queue Demo.world1.
Proof.
  apply (updateScore_failure_aborts (Some Commit) Demo.world1 (Demo.request 50 2000) "tok-1" 2000).
  right; right; right. exists Commit. split; [reflexivity|]. repeat constructor.
Defined.

(** *** C3 *)

(** A token already consumed, a secret that does not match and a token
    past its expiry are refused with one and the same error. *)
Lemma consumed_token_error_is_generic :
  let first := updateScore None Demo.world1 (Demo.request 50 2000) "tok-1" 2000 in
  let again := updateScore None first.2 (Demo.request 50 4000) "tok-1" 4000 in
  let unknown := updateScore None Demo.world1 (Demo.request 50 2000) "tok-0" 2000 in
  let expired := updateScore None Demo.world1 (Demo.request 50 2000) "tok-1" 400000 in
  first.1 = Ok {| success := true; newScore := 150; rank := Some 1; previousRank := Some 1 |}
  ∧ again.1 = Err (Error "Invalid or expired action token")
  ∧ again.1 = unknown.1
  ∧ again.1 = expired.1.
Proof. vm_compute. split_and!; reflexivity. Qed.

Lemma updateScore_single_use_witness :
  let w1 := (updateScore None Demo.world1 (Demo.request 50 2000) "tok-1" 2000).2 in
  (∃ e, (updateScore None w1 (Demo.request 50 4000) "tok-1" 4000).1 = Err e)
  ∧ db (updateScore None w1 (Demo.request 50 4000) "tok-1" 4000).2 = db w1
  ∧ (updateScore None w1 (Demo.request 50 4000) "tok-1" 4000).1
    = Err (Error "Invalid or expired action token").
Proof.
  intros w1.
  destruct (updateScore_single_use None Demo.world1 (Demo.request 50 2000) "tok-1" 2000
              {| success := true; newScore := 150; rank := Some 1; previousRank := Some 1 |}
              w1 [] None (Demo.request 50 4000) "tok-1" 4000)
    as (_ & Herr & Hdb & Hgeneric).
  - exact (proj1 world1_ledger_ok).
  - vm_compute. reflexivity.
  - reflexivity.
  - split; [exact Herr|]. split; [exact Hdb|]. apply Hgeneric. discriminate.
Defined.

(** *** C4 *)

(** A token presented at its very expiry instant is taken and the
    action completed; and a secret that does not match gets the error
    an expired token gets. *)
Lemma token_taken_at_expiry_instant :
  Action.expiresAt Demo.action1 = 301000
  ∧ validateActionToken None (db Demo.world1) "tok-1" "act-1" "alice" 301000 = Ok Demo.action1
  ∧ (updateScore None Demo.world1 (Demo.request 50 2000) "tok-1" 301000).1
    = Ok {| success := true; newScore := 150; rank := Some 1; previousRank := Some 1 |}
  ∧ Action.status <$>
      Actions (db (updateScore None Demo.world1 (Demo.request 50 2000) "tok-1" 301000).2) !! "act-1"
    = Some completed
  ∧ validateActionToken None (db Demo.world1) "tok-0" "act-1" "alice" 2000
    = validateActionToken None (db Demo.world1) "tok-1" "act-1" "alice" 301001.
Proof. vm_compute. split_and!; reflexivity. Qed.

Lemma validateActionToken_spec_witness :
  validateActionToken None (db Demo.world1) "tok-1" "act-1" "alice" 2000 = Ok Demo.action1
  ∧ validateActionToken None (db Demo.world1) "tok-0" "act-1" "alice" 2000
    = Err (Error "Invalid or expired action token").
Proof.
  split.
  - apply (proj1 (validateActionToken_spec (db Demo.world1) "tok-1" "act-1" "alice" 2000)).
    split_and!; [vm_compute; reflexivity|reflexivity..|vm_compute; discriminate].
  - apply (proj2 (validateActionToken_spec (db Demo.world1) "tok-0" "act-1" "alice" 2000)).
    intros action. vm_compute. discriminate.
Defined.

(** *** C5 *)

(** One conflict of the store on the update of the score row, in a
    call that succeeds when the store raises nothing: the call fails
    with the error of the store and the score stays at 100, where the
    unit of the specification, allowed one retry, commits the score
    150; nothing is tried again. And one conflict on the commit: the
    call fails with the error of the rollback, not with that of the
    store. *)
Lemma store_conflict_not_retried :
  (updateScore None Demo.world1 (Demo.request 50 2000) "tok-1" 2000).1
  = Ok {| success := true; newScore := 150; rank := Some 1; previousRank := Some 1 |}
  ∧ (updateScore (Some UpdateScoreRow) Demo.world1 (Demo.request 50 2000) "tok-1" 2000).1
    = Err (StoreConflict UpdateScoreRow)
  ∧ Score.currentScore <$>
      Scores (db (updateScore (Some UpdateScoreRow) Demo.world1 (Demo.request 50 2000) "tok-1" 2000).2)
        !! "alice"
    = Some 100
  ∧ (∃ committed row previous,
       RetrySpec.mutate 1 [Some UpdateScoreRow] (db Demo.world1) (board Demo.world1)
         (Demo.request 50 2000) Demo.action1 2000
       = Ok (committed, row, previous, 150)
       ∧ Score.currentScore <$> Scores committed !! "alice" = Some 150)
  ∧ (updateScore (Some Commit) Demo.world1 (Demo.request 50 2000) "tok-1" 2000).1
    = Err (Error "Transaction cannot be rolled back because it has been finished with state: commit").
Proof.
  split_and!; try (vm_compute; reflexivity).
  eexists _, _, _. split; vm_compute; reflexivity.
Qed.

Lemma updateScore_conflict_surfaces_witness :
  (updateScore (Some Commit) Demo.world1 (Demo.request 50 2000) "tok-1" 2000).1
  = Err rollbackFinished
  ∧ db (updateScore (Some Commit) Demo.world1 (Demo.request 50 2000) "tok-1" 2000).2
    = db Demo.world1.
Proof.
  destruct (updateScore_conflict_surfaces Commit Demo.world1 (Demo.request 50 2000) "tok-1" 2000
              {| success := true; newScore := 150; rank := Some 1; previousRank := Some 1 |}
              (updateScore None Demo.world1 (Demo.request 50 2000) "tok-1" 2000).2)
    as (Hresult & Hdb & _).
  - repeat constructor.
  - vm_compute. reflexivity.
  - split; [exact Hresult|exact Hdb].
Defined.

(** *** C6 *)

(** A forged checksum with an excessive magnitude, and a good checksum
    with the same magnitude: two reasons of rejection in the words of
    the specification, one and the same answer of the code, and one
    and the same error thrown by [updateScore]. *)
Lemma rejection_carries_no_reason :
  AdmissionSpec.decision [] Demo.emptyCache (Demo.forged 150 2000) 2000
  = AdmissionSpec.Reject AdmissionSpec.ProofInvalid
  ∧ AdmissionSpec.decision [] Demo.emptyCache (Demo.attempt 150 2000) 2000
    = AdmissionSpec.Reject AdmissionSpec.MagnitudeExceeded
  ∧ AntiCheatService.validateScoreUpdate [] Demo.emptyCache (Demo.forged 150 2000) 2000
    = AntiCheatService.validateScoreUpdate [] Demo.emptyCache (Demo.attempt 150 2000) 2000
  ∧ (updateScore None Demo.world1 (Demo.forgedRequest 150 2000) "tok-1" 2000).1
    = Err (Error "Score update failed validation")
  ∧ (updateScore None Demo.world1 (Demo.request 150 2000) "tok-1" 2000).1
    = Err (Error "Score update failed validation").
Proof. vm_compute. split_and!; reflexivity. Qed.

Lemma validateScoreUpdate_decision_witness :
  AdmissionSpec.decision [] Demo.emptyCache (Demo.forged 150 2000) 2000
  = AdmissionSpec.Reject AdmissionSpec.ProofInvalid
  ∧ (AntiCheatService.validateScoreUpdate [] Demo.emptyCache (Demo.forged 150 2000) 2000).1.1 = false.
Proof.
  apply (proj2 (validateScoreUpdate_decision [] Demo.emptyCache (Demo.forged 150 2000) 2000)).
  vm_compute. reflexivity.
Defined.

(** *** C7 *)

(** A rejected attempt leaves the counters as they were, and an
    attempt of the same user one millisecond later is accepted: the
    rejected one did not count toward the minimum spacing. *)
Lemma rejected_attempt_not_counted :
  let rejected := updateScore None Demo.world1 (Demo.request 150 2000) "tok-1" 2000 in
  rejected.1 = Err (Error "Score update failed validation")
  ∧ last_action (redis rejected.2) = last_action (redis Demo.world1)
  ∧ action_count (redis rejected.2) = action_count (redis Demo.world1)
  ∧ AntiCheatService.getLastActionTime (redis rejected.2) "alice" 2001 = None
  ∧ AntiCheatService.getActionCount (redis rejected.2) "alice" 3600 2001 = 0
  ∧ (updateScore None rejected.2 (Demo.request 50 2001) "tok-1" 2001).1
    = Ok {| success := true; newScore := 150; rank := Some 1; previousRank := Some 1 |}.
Proof. vm_compute. split_and!; reflexivity. Qed.

Lemma validateScoreUpdate_counters_witness :
  (AntiCheatService.validateScoreUpdate [] Demo.emptyCache (Demo.attempt 150 2000) 2000).1.2
  = Demo.emptyCache
  ∧ last_action (AntiCheatService.validateScoreUpdate [] Demo.emptyCache (Demo.attempt 50 2000) 2000).1.2
      !! "alice"
    = Some (2000, Some 3602000)
  ∧ action_count (AntiCheatService.validateScoreUpdate [] Demo.emptyCache (Demo.attempt 50 2000) 2000).1.2
      !! "alice"
    = Some (1, Some 3602000).
Proof.
  split.
  - apply (proj1 (validateScoreUpdate_counters [] Demo.emptyCache (Demo.attempt 150 2000) 2000)).
    vm_compute. reflexivity.
  - destruct (proj2 (validateScoreUpdate_counters [] Demo.emptyCache (Demo.attempt 50 2000) 2000))
      as (Hlast & Hcount & _).
    + vm_compute. reflexivity.
    + split; [exact Hlast|exact Hcount].
Defined.

(** *** C8 *)



(** *** C9 *)

(** With [A] and [B] at 500, the list that names [B] before [A] is an
    answer of the query, against the tie-break by user id. *)
Lemma tie_listed_against_user_id :
  let result := [Demo.scoreRow "B" 500; Demo.scoreRow "A" 500; Demo.scoreRow "C" 300] in
  CacheManager.calculateLeaderboard Demo.tied result
  ∧ String.ltb "A" "B" = true
  ∧ ¬ CacheManager.tiesByUserId result.
Proof.
  split_and!.
  - exists [Demo.scoreRow "B" 500; Demo.scoreRow "A" 500; Demo.scoreRow "C" 300]. split_and!.
    + apply (bool_decide_unpack _). vm_compute. exact I.
    + repeat constructor; unfold CacheManager.byScoreDesc; simpl; lia.
    + reflexivity.
  - reflexivity.
  - intros Hties.
    specialize (Hties 1%nat 0%nat (Demo.scoreRow "A" 500) (Demo.scoreRow "B" 500)
                  eq_refl eq_refl eq_refl eq_refl).
    lia.
Qed.

Lemma calculateLeaderboard_order_witness :
  let result := [Demo.scoreRow "A" 500; Demo.scoreRow "B" 500; Demo.scoreRow "C" 300] in
  StronglySorted CacheManager.byScoreDesc result ∧ (length result ≤ 10)%nat.
Proof.
  intros result.
  destruct (calculateLeaderboard_order Demo.tied result) as (Hsorted & Hlength & _).
  - exists result. split_and!.
    + apply (bool_decide_unpack _). vm_compute. exact I.
    + repeat constructor; unfold CacheManager.byScoreDesc; simpl; lia.
    + reflexivity.
  - split; [exact Hsorted|exact Hlength].
Defined.

(** *** C10 *)

Lemma generateActionToken_expiry_witness :
  ∃ w' action,
    generateActionToken None Demo.world0 "alice" "quest" "act-1" "tok-1" 1000
    = (Ok {| it_actionId := "act-1"; it_token := "tok-1"; it_expiresAt := 1000 + 300000 |}, w')
    ∧ Actions (db w') !! "act-1" = Some action
    ∧ Action.status action = pending
    ∧ Action.expiresAt action = 1000 + 300000
    ∧ Action.userId action = "alice"
    ∧ Action.actionType action = "quest"
    ∧ Action.token action = "tok-1".
Proof.
  apply (generateActionToken_expiry Demo.world0 "alice" "quest" "act-1" "tok-1" 1000).
  vm_compute. reflexivity.
Defined.

(** *** Conservation *)

Lemma run_conservation_witness :
  let calls :=
    [ Ledger.UpdateScore (Some Publish) (Demo.request 50 2000) "tok-1" 2000;
      Ledger.UpdateScore None (Demo.request 50 4000) "tok-1" 4000 ] in
  ∃ committed : list ScoreUpdateRequest,
    sublist (Ledger.run Demo.world1 calls).2 committed
    ∧ Ledger.posting <$> ScoreHistories (db (Ledger.run Demo.world1 calls).1)
      = (Ledger.posting <$> ScoreHistories (db Demo.world1)) ++ (Ledger.delta <$> committed)
    ∧ NoDup (actionId <$> committed).
Proof.
  intros calls.
  destruct (run_conservation Demo.world1 calls world1_ledger_ok)
    as (committed & Hreturned & _ & _ & Hpostings & Hnodup & _).
  exists committed. split; [exact Hreturned|]. split; [exact Hpostings|exact Hnodup].
Defined.

Lemma exec_conservation_witness :
  ∃ row',
    Scores (db (Interleaving.world
                  (Interleaving.exec Demo.twoCalls [0; 1; 0; 1; 0; 0; 0; 1; 1; 1]%nat))) !! "alice"
    = Some row'
    ∧ Score.currentScore row'
      = 100 + Interleaving.committedTotal "alice"
                (Interleaving.sessions
                   (Interleaving.exec Demo.twoCalls [0; 1; 0; 1; 0; 0; 0; 1; 1; 1]%nat)).
Proof.
  apply (exec_conservation Demo.twoCalls [0; 1; 0; 1; 0; 0; 0; 1; 1; 1]%nat "alice"
           (Demo.scoreRow "alice" 100)).
  - repeat constructor.
  - vm_compute. reflexivity.
Defined.

End examples.

(** * Further properties of the services *)

(** ** The registry of connections *)

Section registry.
Import WebSocketService.

Implicit Types (connectedUsers : gmap string (gset string)).

Lemma addUserConnection_lookup connectedUsers userId socketId other :
  addUserConnection connectedUsers userId socketId !! other
  = if decide (userId = other)
    then Some (default ∅ (connectedUsers !! userId) ∪ {[socketId]})
    else connectedUsers !! other.
Proof.
  unfold addUserConnection.
  destruct (connectedUsers !! userId) as [connections|] eqn:Hold.
  - rewrite Hold. rewrite lookup_insert. by case_decide.
  - rewrite lookup_insert_eq, insert_insert_eq, lookup_insert. by case_decide.
Qed.

Lemma removeUserConnection_lookup connectedUsers userId socketId other :
  removeUserConnection connectedUsers userId socketId !! other
  = if decide (userId = other)
    then match connectedUsers !! userId with
         | Some connections =>
             if decide (connections ∖ {[socketId]} = ∅) then None
             else Some (connections ∖ {[socketId]})
         | None => None
         end
    else connectedUsers !! other.
Proof.
  unfold removeUserConnection.
  destruct (connectedUsers !! userId) as [connections|] eqn:Hold.
  - case_bool_decide as Hsize.
    + apply size_empty_inv, leibniz_equiv in Hsize.
      rewrite lookup_delete. case_decide; [|done]. by rewrite decide_True.
    + rewrite lookup_insert. case_decide; [|done].
      rewrite decide_False; [done|]. intros Hempty. apply Hsize. rewrite Hempty. apply size_empty.
  - case_decide; [by subst|done].
Qed.

Lemma apply_trimmed connectedUsers change :
  trimmed connectedUsers → trimmed (apply connectedUsers change).
Proof.
  intros Htrimmed user connections. destruct change as [userId socketId|userId socketId]; simpl.
  - rewrite addUserConnection_lookup. case_decide; [|apply Htrimmed].
    intros [= <-]. set_solver.
  - rewrite removeUserConnection_lookup. case_decide; [|apply Htrimmed].
    destruct (connectedUsers !! userId) as [old|]; [|done].
    case_decide; [done|]. by intros [= <-].
Qed.

Lemma apply_listed connectedUsers change userId socketId :
  listed (apply connectedUsers change) userId socketId
  ↔ match change with
    | Add userId' socketId' =>
        (userId' = userId ∧ socketId' = socketId) ∨ listed connectedUsers userId socketId
    | Remove userId' socketId' =>
        ¬ (userId' = userId ∧ socketId' = socketId) ∧ listed connectedUsers userId socketId
    end.
Proof.
  unfold listed. destruct change as [userId' socketId'|userId' socketId']; simpl.
  - rewrite addUserConnection_lookup. case_decide as Huser.
    + subst userId'. split.
      * intros (connections & [= <-] & Hin). apply elem_of_union in Hin as [Hin|Hin].
        -- right. destruct (connectedUsers !! userId) as [old|]; [by exists old|set_solver].
        -- left. set_solver.
      * intros [[_ ->]|(connections & Hold & Hin)].
        -- eexists. split; [done|]. set_solver.
        -- eexists. split; [done|]. rewrite Hold. set_solver.
    + split; [by right|]. intros [[? _]|?]; done.
  - rewrite removeUserConnection_lookup. case_decide as Huser.
    + subst userId'. destruct (connectedUsers !! userId) as [old|].
      * case_decide as Hempty.
        -- split; [by intros (? & ? & ?)|]. intros (Hne & connections & [= <-] & Hin).
           destruct (decide (socketId' = socketId)) as [->|Hsocket]; [by destruct Hne|set_solver].
        -- split.
           ++ intros (connections & [= <-] & Hin). split; [set_solver|]. exists old. set_solver.
           ++ intros (Hne & connections & [= <-] & Hin). eexists. split; [done|].
              destruct (decide (socketId' = socketId)) as [->|Hsocket]; [by destruct Hne|set_solver].
      * split; [by intros (? & ? & ?)|]. by intros (_ & ? & ? & ?).
    + split; [intros Hlisted; split; [by intros [? _]|done]|by intros [_ ?]].
Qed.

(** X3. After any sequence of calls of [addUserConnection] and
    [removeUserConnection] on a registry that starts empty, a socket is
    listed under a user exactly when the last call that names the pair
    is an addition; no user is kept with an empty set; and
    [getConnectedUsersCount] is the number of users that have a socket
    connected. *)
Theorem registry_after changes :
  (∀ userId socketId,
      listed (after changes) userId socketId ↔ (userId, socketId) ∈ connected changes)
  ∧ trimmed (after changes)
  ∧ getConnectedUsersCount (after changes)
    = size (set_map (D := gset string) fst (connected changes)).
Proof.
  assert (∀ start (pairs : gset (string * string)),
            trimmed start →
            (∀ userId socketId, listed start userId socketId ↔ (userId, socketId) ∈ pairs) →
            trimmed (foldl apply start changes)
            ∧ ∀ userId socketId,
                listed (foldl apply start changes) userId socketId
                ↔ (userId, socketId)
                  ∈ foldl (fun pairs change =>
                             match change with
                             | Add userId socketId => pairs ∪ {[(userId, socketId)]}
                             | Remove userId socketId => pairs ∖ {[(userId, socketId)]}
                             end) pairs changes) as Hrun.
  { induction changes as [|change changes IH]; intros start pairs Htrimmed Hlisted; [done|].
    simpl. apply IH; [by apply apply_trimmed|].
    intros userId socketId. rewrite apply_listed.
    destruct change as [userId' socketId'|userId' socketId']; rewrite Hlisted; set_solver. }
  destruct (Hrun ∅ ∅) as [Htrimmed Hlisted].
  { intros userId connections Hrow. by rewrite lookup_empty in Hrow. }
  { intros userId socketId. split; [|set_solver]. intros (? & Hrow & _).
    by rewrite lookup_empty in Hrow. }
  split; [done|]. split; [done|].
  unfold getConnectedUsersCount. rewrite <- size_dom. f_equal.
  apply set_eq. intros userId. rewrite elem_of_dom, elem_of_map. split.
  - intros [connections Hrow].
    destruct (set_choose_L connections) as [socketId Hin]; [by eapply Htrimmed|].
    exists (userId, socketId). split; [done|]. apply Hlisted. by exists connections.
  - intros ([userId' socketId] & -> & Hin). apply Hlisted in Hin as (connections & Hrow & _).
    by exists connections.
Qed.

(** X4. On a registry that keeps no empty set, connecting a socket that
    is not listed under the user and disconnecting it again gives the
    registry back as it was, the user's entry included. *)
Theorem removeUserConnection_addUserConnection connectedUsers userId socketId :
  trimmed connectedUsers →
  ¬ listed connectedUsers userId socketId →
  removeUserConnection (addUserConnection connectedUsers userId socketId) userId socketId
  = connectedUsers.
Proof.
  intros Htrimmed Hnew. apply map_eq. intros other.
  rewrite removeUserConnection_lookup.
  destruct (decide (userId = other)) as [<-|Hother].
  - rewrite addUserConnection_lookup, decide_True by done.
    destruct (connectedUsers !! userId) as [connections|] eqn:Hold; simpl.
    + assert (socketId ∉ connections) as Hout by (intros Hin; apply Hnew; by exists connections).
      assert ((connections ∪ {[socketId]}) ∖ {[socketId]} = connections) as -> by set_solver.
      rewrite decide_False; [done|]. by eapply Htrimmed.
    + rewrite decide_True; [done|]. set_solver.
  - by rewrite addUserConnection_lookup, decide_False.
Qed.

End registry.

(** ** Admission of attempts in a row *)

Section attempts.
Context `{Platform}.
Import AntiCheatService.

(** What an accepted attempt has passed, and what it leaves. *)
Lemma validateScoreUpdate_true history cache request now :
  (validateScoreUpdate history cache request now).1.1 = true →
  validateChecksum request = true
  ∧ ValidationRequest.scoreIncrement request ≤ maxScorePerAction config
  ∧ (∀ last, getLastActionTime cache (ValidationRequest.userId request) now = Some last →
       minTimeBetweenActions config ≤ ValidationRequest.timestamp request - last)
  ∧ getActionCount cache (ValidationRequest.userId request) 3600 now < maxActionsPerHour config
  ∧ (detectSuspiciousPatterns history request now).1 = false
  ∧ (validateScoreUpdate history cache request now).1.2 = recordAction cache request now.
Proof.
  unfold validateScoreUpdate.
  destruct (validateChecksum request); cbn [negb]; [|done].
  destruct (ValidationRequest.scoreIncrement request >? maxScorePerAction config)
    eqn:Hmagnitude; [done|].
  rewrite Z.gtb_ltb in Hmagnitude.
  destruct (getLastActionTime cache (ValidationRequest.userId request) now) as [last|] eqn:Hlast.
  - destruct (ValidationRequest.timestamp request - last <? minTimeBetweenActions config)
      eqn:Hspacing; [done|].
    destruct (getActionCount cache (ValidationRequest.userId request) 3600 now
              >=? maxActionsPerHour config) eqn:Hvolume; [done|].
    rewrite Z.geb_leb in Hvolume.
    destruct (detectSuspiciousPatterns history request now) as [[] reads]; [done|].
    intros _. split_and!; try done; try lia.
    intros ? [= <-]. lia.
  - destruct (getActionCount cache (ValidationRequest.userId request) 3600 now
              >=? maxActionsPerHour config) eqn:Hvolume; [done|].
    rewrite Z.geb_leb in Hvolume.
    destruct (detectSuspiciousPatterns history request now) as [[] reads]; [done|].
    intros _. split_and!; try done; lia.
Qed.

(** X5. Once an attempt of a user is accepted, every attempt of that
    user whose timestamp is less than 1000 milliseconds after the
    accepted one's, earlier timestamps included, is rejected, for as
    long as the record of the last action lives: an hour from the
    instant of the accepted call. *)
Theorem spacing_enforced history cache request now history' request' now' :
  (validateScoreUpdate history cache request now).1.1 = true →
  ValidationRequest.userId request' = ValidationRequest.userId request →
  now' < now + 3600000 →
  ValidationRequest.timestamp request' - ValidationRequest.timestamp request < 1000 →
  (validateScoreUpdate history' (validateScoreUpdate history cache request now).1.2 request' now').1.1
  = false.
Proof.
  intros Haccepted Huser Halive Hclose.
  apply validateScoreUpdate_true in Haccepted as (_ & _ & _ & _ & _ & ->).
  unfold validateScoreUpdate.
  destruct (validateChecksum request'); cbn [negb]; [|done].
  destruct (ValidationRequest.scoreIncrement request' >? maxScorePerAction config); [done|].
  unfold getLastActionTime, Redis.get. rewrite Huser, recordAction_last.
  unfold Redis.alive.
  destruct (now' <? now + 3600000) eqn:Hlive; [|lia].
  destruct (ValidationRequest.timestamp request' - ValidationRequest.timestamp request
            <? minTimeBetweenActions config) eqn:Hspacing; [done|].
  unfold config in Hspacing. simpl in Hspacing. lia.
Qed.

Lemma recordAction_getActionCount cache request now now' :
  now' < now + 3600000 →
  getActionCount (recordAction cache request now) (ValidationRequest.userId request) 3600 now'
  = getActionCount cache (ValidationRequest.userId request) 3600 now + 1.
Proof.
  intros Hlive. unfold getActionCount at 1, Redis.get.
  rewrite recordAction_count. unfold Redis.alive.
  destruct (now' <? now + 3600000) eqn:Halive; [done|lia].
Qed.

Lemma last_cons_default {A} (l : list A) (a d : A) :
  List.last (a :: l) d = List.last l a.
Proof.
  revert a d. induction l as [|b l IH]; intros a d; [done|].
  change (List.last (a :: b :: l) d) with (List.last (b :: l) d).
  rewrite IH. symmetry. apply IH.
Qed.

(** X6. The hourly counter of a user is a count of accepted attempts
    whose expiry is pushed an hour ahead by every accepted attempt, not
    a count over the trailing hour: when attempts of one user are
    accepted in a row, each less than an hour after the one before,
    the counter ends at its value at the first attempt plus their
    number, however long the row lasts, and that sum is at most 100. *)
Theorem accepted_in_a_row user first rest cache cache' :
  (∀ attempt, attempt ∈ first :: rest →
     ValidationRequest.userId (Attempts.request attempt) = user) →
  Attempts.spaced first rest →
  Attempts.acceptAll cache (first :: rest) = Some cache' →
  getActionCount cache user 3600 (Attempts.now first) + Z.of_nat (length (first :: rest))
  ≤ maxActionsPerHour config
  ∧ ∀ now', now' < Attempts.now (List.last rest first) + 3600000 →
      getActionCount cache' user 3600 now'
      = getActionCount cache user 3600 (Attempts.now first) + Z.of_nat (length (first :: rest)).
Proof.
  revert first cache. induction rest as [|next rest IH]; intros first cache Huser Hspaced Hall.
  - simpl in Hall.
    destruct (validateScoreUpdate _ cache _ _) as [[[] after] accesses] eqn:Hfirst; [|done].
    injection Hall as <-.
    pose proof (validateScoreUpdate_true (Attempts.history first) cache
                  (Attempts.request first) (Attempts.now first)) as Hpassed.
    rewrite Hfirst in Hpassed. destruct (Hpassed eq_refl) as (_ & _ & _ & Hvolume & _ & Hafter).
    simpl in Hafter. subst after.
    rewrite (Huser first) in Hvolume by set_solver.
    split; [simpl length; lia|].
    intros now' Hlive. simpl in Hlive.
    rewrite <- (Huser first) by set_solver.
    rewrite recordAction_getActionCount by done. simpl length. lia.
  - change (Attempts.acceptAll cache (first :: next :: rest))
      with (match validateScoreUpdate (Attempts.history first) cache (Attempts.request first)
                    (Attempts.now first) with
            | (true, cache, _) => Attempts.acceptAll cache (next :: rest)
            | (false, _, _) => None
            end) in Hall.
    destruct (validateScoreUpdate _ cache _ _) as [[[] after] accesses] eqn:Hfirst; [|done].
    pose proof (validateScoreUpdate_true (Attempts.history first) cache
                  (Attempts.request first) (Attempts.now first)) as Hpassed.
    rewrite Hfirst in Hpassed. destruct (Hpassed eq_refl) as (_ & _ & _ & Hvolume & _ & Hafter).
    simpl in Hafter. subst after.
    destruct Hspaced as [Hnext Hspaced].
    destruct (IH next _ ltac:(intros; apply Huser; set_solver) Hspaced Hall) as [Hcap Hcount].
    assert (getActionCount (recordAction cache (Attempts.request first) (Attempts.now first))
              user 3600 (Attempts.now next)
            = getActionCount cache user 3600 (Attempts.now first) + 1) as Hstep.
    { rewrite <- (Huser first) by set_solver.
      apply recordAction_getActionCount. lia. }
    rewrite Hstep in Hcap, Hcount.
    change (length (first :: next :: rest)) with (S (length (next :: rest))).
    split; [lia|].
    intros now' Hlive.
    rewrite last_cons_default in Hlive.
    rewrite Hcount by done. lia.
Qed.

Lemma filter_filter_and {A} (f g : A → bool) (l : list A) :
  List.filter (fun x => f x && g x) l = List.filter g (List.filter f l).
Proof.
  induction l as [|x l IH]; [done|]. simpl.
  destruct (f x); simpl; [destruct (g x)|]; by rewrite IH.
Qed.

(** X7. The decision on a request depends on the stores only through
    what they hold for the user of the request: two caches that agree
    on that user's last-action and action-count entries, with two
    histories that hold the same rows of that user, give the same
    decision and the same accesses, whatever they hold for other
    users. *)
Theorem validateScoreUpdate_per_user history history' cache cache' request now :
  last_action cache !! ValidationRequest.userId request
  = last_action cache' !! ValidationRequest.userId request →
  action_count cache !! ValidationRequest.userId request
  = action_count cache' !! ValidationRequest.userId request →
  Attempts.rowsOf (ValidationRequest.userId request) history
  = Attempts.rowsOf (ValidationRequest.userId request) history' →
  (validateScoreUpdate history cache request now).1.1
  = (validateScoreUpdate history' cache' request now).1.1
  ∧ (validateScoreUpdate history cache request now).2
    = (validateScoreUpdate history' cache' request now).2.
Proof.
  intros Hlast Hcount Hrows.
  assert (detectSuspiciousPatterns history request now
          = detectSuspiciousPatterns history' request now) as Hpatterns.
  { unfold detectSuspiciousPatterns, getRecentActions, calculateScoreVelocity.
    rewrite !filter_filter_and. unfold Attempts.rowsOf in Hrows. by rewrite Hrows. }
  unfold validateScoreUpdate, getLastActionTime, getActionCount, Redis.get.
  rewrite Hlast, Hcount, Hpatterns.
  destruct (validateChecksum request); cbn [negb]; [|done].
  destruct (ValidationRequest.scoreIncrement request >? maxScorePerAction config); [done|].
  destruct (match last_action cache' !! ValidationRequest.userId request with
            | Some (v, d) => if Redis.alive now d then Some v else None
            | None => None
            end) as [last|].
  - destruct (ValidationRequest.timestamp request - last <? minTimeBetweenActions config); [done|].
    destruct (_ >=? maxActionsPerHour config); [done|].
    destruct (detectSuspiciousPatterns history' request now) as [[] reads]; done.
  - destruct (_ >=? maxActionsPerHour config); [done|].
    destruct (detectSuspiciousPatterns history' request now) as [[] reads]; done.
Qed.

End attempts.

(** ** The audit trail, the cache and the queue *)

Section audit.
Context `{Platform} {Board Rank : Type} `{LeaderboardService Board Rank}.
Import ScoreService Ledger Audit.

Implicit Types (w : World Board Rank) (request : ScoreUpdateRequest) (fault : option Statement).

Lemma validateScoreUpdate_false history cache (attempt : ValidationRequest.t) now :
  (AntiCheatService.validateScoreUpdate history cache attempt now).1.1 = false →
  (AntiCheatService.validateScoreUpdate history cache attempt now).1.2 = cache.
Proof.
  unfold AntiCheatService.validateScoreUpdate.
  destruct (AntiCheatService.validateChecksum attempt); cbn [negb]; [|done].
  destruct (_ >? _); [done|].
  destruct (match AntiCheatService.getLastActionTime cache _ now with
            | Some last => _ | None => false end); [done|].
  destruct (_ >=? _); [done|].
  destruct (AntiCheatService.detectSuspiciousPatterns history attempt now) as [[] reads]; done.
Qed.

(** What a call leaves in Redis, by its outcome. *)
Lemma updateScore_redis fault w request actionToken now :
  let call := updateScore fault w request actionToken now in
  (∃ new, ((∃ r, call.1 = Ok r ∧ newScore r = new) ∨ call.1 = Err rollbackFinished)
          ∧ redis call.2
            = updateScoreCache (AntiCheatService.recordAction (redis w) (validation request) now)
                (userId request) new now)
  ∨ (call.1 = Err (Error "Score update failed validation")
     ∧ redis call.2 = flagSuspiciousActivity (redis w) (userId request) request now)
  ∨ (∃ e, call.1 = Err e ∧ e ≠ Error "Score update failed validation"
          ∧ (redis call.2 = redis w
             ∨ redis call.2 = AntiCheatService.recordAction (redis w) (validation request) now)).
Proof.
  unfold updateScore.
  destruct (validateActionToken _ _ _ _ _ _) as [action|e0] eqn:Htoken.
  - fold (validation request).
    pose proof (validateScoreUpdate_true (ScoreHistories (db w)) (redis w) (validation request) now)
      as Htrue.
    pose proof (validateScoreUpdate_false (ScoreHistories (db w)) (redis w) (validation request) now)
      as Hfalse.
    destruct (AntiCheatService.validateScoreUpdate _ _ _ _) as [[[] cache] accesses]; simpl in *.
    + destruct (Htrue eq_refl) as (_ & _ & _ & _ & _ & ->).
      destruct (mutate _ _ _ _ _ _) as [[[[committed row] previous] new]|e1] eqn:Hmutate.
      * left. exists new. unfold statement.
        destruct (faulty fault UpdateUserScore); [split; [by right|done]|].
        destruct (updateUserScore _ _ _) as [leaderboard newRank].
        destruct (faulty fault Publish); [split; [by right|done]|].
        simpl. split; [|done]. left. by eexists.
      * simpl. right. right. eexists. split_and!; [done| |by right].
        unfold catch. case_bool_decide; [done|].
        by destruct (mutate_Err _ _ _ _ _ _ _ Hmutate) as [->|(s & _ & ->)].
    + rewrite (Hfalse eq_refl). right. left. done.
  - simpl. right. right. exists e0. split_and!; [done| |by left].
    unfold validateActionToken, mbind, Result_bind, statement in Htoken.
    destruct (faulty fault FindAction); [by injection Htoken as <-|].
    destruct (findPendingAction _ _ _ _) as [action|]; [|by injection Htoken as <-].
    destruct (_ >? _); [by injection Htoken as <-|done].
Qed.

(** X8. The note of a suspicious activity is left by exactly the calls
    that the anti-cheat service rejects: such a call stores, under the
    user of the request, the instant of the call, the request and the
    reason, to expire 24 hours later, in place of any earlier note of
    that user, and leaves the rate-limit counters and the cached scores
    as they were; a call that ends in any other way (accepted, refused
    for its token, failed at the store) leaves every note as it was. *)
Theorem updateScore_suspicious_note fault w request actionToken now :
  let call := updateScore fault w request actionToken now in
  (call.1 = Err (Error "Score update failed validation") →
     suspicious (redis call.2)
     = <[userId request :=
           ({| note_timestamp := now;
               note_request := request;
               note_reason := "Failed anti-cheat validation" |},
            Some (now + 86400000))]> (suspicious (redis w))
     ∧ last_action (redis call.2) = last_action (redis w)
     ∧ action_count (redis call.2) = action_count (redis w)
     ∧ user_score (redis call.2) = user_score (redis w))
  ∧ (call.1 ≠ Err (Error "Score update failed validation") →
     suspicious (redis call.2) = suspicious (redis w)).
Proof.
  intros call.
  destruct (updateScore_redis fault w request actionToken now)
    as [(new & [(r & Hres & _)|Hres] & Hredis)
       |[(Hres & Hredis)|(e & Hres & Hne & [Hredis|Hredis])]];
    fold call in Hres, Hredis; rewrite Hres, Hredis.
  - split; [discriminate|done].
  - split; [discriminate|done].
  - split; [|done]. intros _. done.
  - split; [|done]. intros [= ->]. done.
  - split; [|done]. intros [= ->]. done.
Qed.

(** X9. An attempt counts toward the rate limits of its user as soon
    as the anti-cheat service has accepted it, whether or not the score
    update that follows succeeds: when the token is in order and the
    checks pass, the call leaves the last-action time at the timestamp
    of the request and the action count one higher, both to expire an
    hour after the call, also when it then fails because the user has
    no score row or because the store conflicts. *)
Theorem updateScore_counts_before_update fault w request actionToken now action :
  validateActionToken fault (db w) actionToken (actionId request) (userId request) now = Ok action →
  (AntiCheatService.validateScoreUpdate (ScoreHistories (db w)) (redis w)
     (validation request) now).1.1 = true →
  let call := updateScore fault w request actionToken now in
  last_action (redis call.2) !! userId request
  = Some (timestamp request, Some (now + 3600000))
  ∧ action_count (redis call.2) !! userId request
    = Some (AntiCheatService.getActionCount (redis w) (userId request) 3600 now + 1,
            Some (now + 3600000)).
Proof.
  intros Htoken Haccepted call.
  assert (last_action (redis call.2)
          = last_action (AntiCheatService.recordAction (redis w) (validation request) now)
          ∧ action_count (redis call.2)
            = action_count (AntiCheatService.recordAction (redis w) (validation request) now))
    as [-> ->].
  { unfold call, updateScore. rewrite Htoken. fold (validation request).
    apply validateScoreUpdate_true in Haccepted as Hpassed.
    destruct Hpassed as (_ & _ & _ & _ & _ & Hcache).
    destruct (AntiCheatService.validateScoreUpdate _ _ _ _) as [[isValid cache] accesses].
    simpl in Haccepted, Hcache. subst isValid cache. simpl.
    destruct (mutate _ _ _ _ _ _) as [[[[committed row] previous] new]|e1]; [|done].
    unfold statement. destruct (faulty fault UpdateUserScore); [done|].
    destruct (updateUserScore _ _ _) as [leaderboard newRank].
    destruct (faulty fault Publish); done. }
  split.
  - apply (recordAction_last (redis w) (validation request) now).
  - apply (recordAction_count (redis w) (validation request) now).
Qed.

Lemma chained_snoc start rows final row :
  chained start rows final →
  ScoreHistory.previousScore row = final →
  ScoreHistory.newScore row = ScoreHistory.previousScore row + ScoreHistory.scoreChange row →
  chained start (rows ++ [row]) (ScoreHistory.newScore row).
Proof.
  intros Hrows Hprevious Hnew. revert start Hrows.
  induction rows as [|first rows IH]; intros start Hrows; simpl in *.
  - split_and!; try done. destruct start as [score|]; [|done]. by subst.
  - destruct Hrows as (Hstart & Hfirst & Hrows). split_and!; try done. by apply IH.
Qed.

Lemma rowsOf_snoc user history row :
  Attempts.rowsOf user (history ++ [row])
  = Attempts.rowsOf user history
      ++ (if bool_decide (ScoreHistory.userId row = user) then [row] else []).
Proof. unfold Attempts.rowsOf. rewrite List.filter_app. simpl. by case_bool_decide. Qed.

(** What a call leaves of the scores, the history rows, the cached
    scores and the queue: nothing, when its transaction is not
    committed; when it is, the new score, the row, the cached score
    and, if the call returns, the event. *)
Lemma perform_effect w call :
  ((perform w call).2 = None
   ∧ Scores (db (perform w call).1) = Scores (db w)
   ∧ ScoreHistories (db (perform w call).1) = ScoreHistories (db w)
   ∧ queue (perform w call).1 = queue w
   ∧ user_score (redis (perform w call).1) = user_score (redis w))
  ∨ (∃ request row instant,
       Scores (db w) !! userId request = Some row
       ∧ Scores (db (perform w call).1)
         = <[userId request :=
               {| Score.id := Score.id row;
                  Score.userId := Score.userId row;
                  Score.currentScore := Score.currentScore row + scoreIncrement request;
                  Score.totalActions := Score.totalActions row + 1;
                  Score.lastUpdated := instant;
                  Score.username := Score.username row |}]> (Scores (db w))
       ∧ ScoreHistories (db (perform w call).1)
         = ScoreHistories (db w) ++
             [ {| ScoreHistory.userId := userId request;
                  ScoreHistory.actionId := actionId request;
                  ScoreHistory.scoreChange := scoreIncrement request;
                  ScoreHistory.previousScore := Score.currentScore row;
                  ScoreHistory.newScore := Score.currentScore row + scoreIncrement request;
                  ScoreHistory.timestamp := timestamp request;
                  ScoreHistory.metadata := metadata request |} ]
       ∧ user_score (redis (perform w call).1)
         = <[userId request :=
               (Score.currentScore row + scoreIncrement request,
                Some (instant + 300000))]> (user_score (redis w))
       ∧ (((perform w call).2 = Some request
           ∧ ∃ event,
               queue (perform w call).1 = queue w ++ [("score.updated", event)]
               ∧ ev_userId event = userId request
               ∧ oldScore event = Score.currentScore row
               ∧ ev_newScore event = Score.currentScore row + scoreIncrement request)
          ∨ ((perform w call).2 = None
             ∧ queue (perform w call).1 = queue w
             ∧ ¬ quiet call))).
Proof.
  destruct call as [fault user kind id token now|fault request token now].
  - left. simpl. unfold generateActionToken. destruct (_ || _); done.
  - rewrite perform_world, perform_accepted_eq. unfold updateScore.
    destruct (validateActionToken _ _ _ _ _ _) as [action|e0]; [|by left].
    fold (validation request).
    pose proof (validateScoreUpdate_true (ScoreHistories (db w)) (redis w) (validation request) now)
      as Htrue.
    pose proof (validateScoreUpdate_false (ScoreHistories (db w)) (redis w) (validation request) now)
      as Hfalse.
    destruct (AntiCheatService.validateScoreUpdate _ _ _ _) as [[[] cache] accesses]; simpl in *.
    + destruct (Htrue eq_refl) as (_ & _ & _ & _ & _ & ->).
      destruct (mutate _ _ _ _ _ _) as [[[[committed row] previous] new]|e1] eqn:Hmutate;
        [|by left].
      right.
      unfold mutate, mbind, Result_bind, statement in Hmutate.
      destruct (faulty fault FindScore); [done|].
      destruct (Scores (db w) !! userId request) as [row'|] eqn:Hrow; [|done].
      destruct (faulty fault UpdateScoreRow); [done|].
      destruct (faulty fault CreateHistory); [done|].
      destruct (faulty fault UpdateAction); [done|].
      destruct (faulty fault Commit); [done|].
      injection Hmutate as <- <- <- <-.
      exists request, row', now. split; [exact Hrow|]. unfold statement, faulty.
      case_bool_decide as Hboard.
      { simpl. split_and!; try reflexivity. right. split_and!; try done. by intros [? _]. }
      destruct (updateUserScore _ _ _) as [leaderboard newRank].
      case_bool_decide as Hpublish.
      { simpl. split_and!; try reflexivity. right. split_and!; try done. by intros [_ ?]. }
      simpl. split_and!; try reflexivity. left. split; [done|].
      eexists. split; [reflexivity|]. done.
    + rewrite (Hfalse eq_refl). by left.
Qed.

(** A call leaves the history rows as they are or writes one more. *)
Lemma perform_rows w call :
  ScoreHistories (db (perform w call).1) = ScoreHistories (db w)
  ∨ ∃ row, ScoreHistories (db (perform w call).1) = ScoreHistories (db w) ++ [row].
Proof.
  destruct (perform_effect w call)
    as [(_ & _ & Hhistory & _)|(request & row & instant & _ & _ & Hhistory & _)].
  - by left.
  - right. by eexists.
Qed.

Lemma perform_audited w call : audited (db w) → audited (db (perform w call).1).
Proof.
  intros Haudited.
  destruct (perform_effect w call)
    as [(_ & Hscores & Hhistory & _)|(request & row & instant & Hrow & Hscores & Hhistory & _)].
  - intros user row. rewrite Hscores, Hhistory. apply Haudited.
  - intros user row'. rewrite Hscores, Hhistory, rowsOf_snoc. simpl.
    case_bool_decide as Huser.
    + subst user. rewrite lookup_insert_eq. intros [= <-]. simpl.
      apply (chained_snoc None _ (Score.currentScore row)
               {| ScoreHistory.userId := userId request;
                  ScoreHistory.actionId := actionId request;
                  ScoreHistory.scoreChange := scoreIncrement request;
                  ScoreHistory.previousScore := Score.currentScore row;
                  ScoreHistory.newScore := Score.currentScore row + scoreIncrement request;
                  ScoreHistory.timestamp := timestamp request;
                  ScoreHistory.metadata := metadata request |}); [by apply Haudited|done|done].
    + rewrite lookup_insert_ne, app_nil_r by done. apply Haudited.
Qed.

Lemma run_fst w call calls :
  (run w (call :: calls)).1 = (run (perform w call).1 calls).1.
Proof.
  cbn [run]. destruct (perform w call) as [w1 first]. cbn [fst snd].
  destruct (run w1 calls) as [w2 rest]. done.
Qed.


(** X10. The audit trail replays to the scores. When the history rows
    of every user chain up to that user's current score (the new score
    of a row is its previous score plus its change, each row starts
    from the score the row before ended at, the last row ends at the
    current score), they still do after any sequence of calls that run
    one after the other. *)
Theorem run_audited w calls : audited (db w) → audited (db (run w calls).1).
Proof.
  revert w. induction calls as [|call calls IH]; intros w Haudited; [done|].
  rewrite run_fst. by apply IH, perform_audited.
Qed.


Lemma perform_coherent w call : coherent w → coherent (perform w call).1.
Proof.
  intros Hcoherent.
  destruct (perform_effect w call)
    as [(_ & Hscores & _ & _ & Hcache)
       |(request & row & instant & Hrow & Hscores & _ & Hcache & _)].
  - intros user score deadline. rewrite Hcache, Hscores. apply Hcoherent.
  - intros user score deadline. rewrite Hcache, Hscores.
    destruct (decide (user = userId request)) as [->|Hother].
    + rewrite !lookup_insert_eq. intros [= <- <-]. by eexists.
    + rewrite !lookup_insert_ne by done. apply Hcoherent.
Qed.

(** X12. The cached scores are never stale. When every score held in
    Redis under [user_score:] is the current score of its user in the
    database, this still holds after any sequence of calls that run one
    after the other: an accepted request rewrites the cached score of
    its user to the score it committed, and no call changes a score in
    the database without it. *)
Theorem run_coherent w calls : coherent w → coherent (run w calls).1.
Proof.
  revert w. induction calls as [|call calls IH]; intros w Hcoherent; [done|].
  rewrite run_fst. by apply IH, perform_coherent.
Qed.





End audit.

(** ** The token of an action, from issue to acceptance *)

Section tokens.
Context `{Platform} {Board Rank : Type} `{LeaderboardService Board Rank}.
Import ScoreService Ledger.

Implicit Types (w : World Board Rank) (request : ScoreUpdateRequest) (fault : option Statement).

(** The history rows only grow. *)
Lemma perform_history w call id :
  id ∈ ScoreHistory.actionId <$> ScoreHistories (db w) →
  id ∈ ScoreHistory.actionId <$> ScoreHistories (db (perform w call).1).
Proof.
  intros Hin.
  destruct (perform_rows w call) as [->|(row & ->)]; [done|].
  rewrite fmap_app, elem_of_app. by left.
Qed.

Lemma run_history calls : ∀ w id,
  id ∈ ScoreHistory.actionId <$> ScoreHistories (db w) →
  id ∈ ScoreHistory.actionId <$> ScoreHistories (db (run w calls).1).
Proof.
  induction calls as [|call calls IH]; intros w id Hin; [done|].
  rewrite run_fst. by apply IH, perform_history.
Qed.

(** A call leaves an action as it is, or commits an update for it and
    writes the history row that names it. *)
Lemma perform_action w call id action :
  ledger_ok (db w) →
  Actions (db w) !! id = Some action →
  Actions (db (perform w call).1) !! id = Some action
  ∨ id ∈ ScoreHistory.actionId <$> ScoreHistories (db (perform w call).1).
Proof.
  intros Hok Hrow.
  destruct call as [fault user kind id' token now|fault request token now].
  - left. simpl. unfold generateActionToken.
    destruct (faulty fault CreateAction); simpl; [done|].
    case_bool_decide as Htaken; simpl; [done|].
    rewrite lookup_insert_ne; [done|]. intros ->. apply Htaken. by eexists.
  - rewrite perform_world.
    destruct (updateScore_cases fault w request token now)
      as [(e & _ & -> & _)
         |(found & row & cache & previous & new & _ & Hfound & _ & _ & Hmutate & _)];
      [by left|].
    apply mutate_Ok in Hmutate as (_ & _ & _ & _ & _ & -> & ->).
    apply findPendingAction_Some in Hfound as (Hfound & _).
    destruct Hok as (Hkeyed & _). rewrite (Hkeyed _ _ Hfound).
    destruct (decide (actionId request = id)) as [<-|Hother].
    + right. rewrite fmap_app, elem_of_app. right. simpl. apply list_elem_of_singleton. done.
    + left. by rewrite lookup_insert_ne.
Qed.

Lemma run_action calls : ∀ w id action,
  ledger_ok (db w) →
  Actions (db w) !! id = Some action →
  id ∉ ScoreHistory.actionId <$> ScoreHistories (db (run w calls).1) →
  Actions (db (run w calls).1) !! id = Some action.
Proof.
  induction calls as [|call calls IH]; intros w id action Hok Hrow Hnot; [done|].
  rewrite run_fst in *.
  destruct (perform_ledger w call Hok) as (_ & _ & _ & Hok1 & _).
  destruct (perform_action w call id action Hok Hrow) as [Hkept|Hwritten].
  - by apply IH.
  - exfalso. apply Hnot. by apply run_history.
Qed.

(** X13. A token stays good until an update for its action is
    committed, or it lapses. Once [generateActionToken] has issued a
    token, and whatever calls run after it (other tokens issued,
    updates of other actions, updates with this token that are
    refused, rejected or fail before their commit), as long as no
    history row names the action, that is, as long as no update for it
    has been committed, the token is taken exactly when it is
    presented for its action with its secret and for its user, no
    later than 300000 milliseconds after its issue. *)
Theorem token_good_until_committed fault w user kind id token now calls issued :
  ledger_ok (db w) →
  let issue := generateActionToken fault w user kind id token now in
  issue.1 = Ok issued →
  id ∉ ScoreHistory.actionId <$> ScoreHistories (db (run issue.2 calls).1) →
  ∀ token' user' now',
    (∃ action,
        validateActionToken None (db (run issue.2 calls).1) token' id user' now' = Ok action)
    ↔ token' = token ∧ user' = user ∧ now' ≤ now + 300000.
Proof.
  intros Hok issue Hissued Hnot token' user' now'.
  pose proof (generateActionToken_ledger fault w user kind id token now) as (Hok1 & _).
  fold issue in Hok1. specialize (Hok1 Hok).
  assert (Actions (db issue.2) !! id
          = Some {| Action.id := id;
                    Action.userId := user;
                    Action.actionType := kind;
                    Action.status := pending;
                    Action.token := token;
                    Action.createdAt := now;
                    Action.expiresAt := now + 300000;
                    Action.completedAt := None |}) as Hrow.
  { unfold issue, generateActionToken in *.
    destruct (_ || _); [done|]. simpl. by rewrite lookup_insert_eq. }
  apply (run_action calls _ _ _ Hok1) in Hrow; [|done].
  unfold validateActionToken, mbind, Result_bind. rewrite statement_no_fault.
  unfold findPendingAction. rewrite Hrow. simpl.
  repeat case_bool_decide; simpl; subst.
  - destruct (now' >? now + 300000) eqn:Hlate; rewrite Z.gtb_ltb in Hlate.
    + split; [by intros [? ?]|]. intros (_ & _ & ?). lia.
    + split; [|by eexists]. intros _. split_and!; try done. lia.
  - split; [by intros [? ?]|]. by intros (? & _).
  - split; [by intros [? ?]|]. by intros (_ & ? & _).
  - split; [by intros [? ?]|]. by intros (? & _).
Qed.

End tokens.

(** ** The cached leaderboard *)

Section cached.
Import CacheStore.

Implicit Types (store : gmap string (list Score.t * option Z)).

Lemma serve_backed calls : ∀ earlier store store',
  backed earlier store →
  serve store calls store' →
  ∀ i call, calls !! i = Some call →
    ∃ source, (source ∈ earlier ∨ ∃ j, (j ≤ i)%nat ∧ calls !! j = Some source)
              ∧ instant call < instant source + 60000
              ∧ CacheManager.calculateLeaderboard (database source) (answer call).
Proof.
  induction calls as [|first calls IH]; intros earlier store store' Hbacked Hserve i call Hcall.
  - done.
  - destruct Hserve as (next & Hfirst & Hrest).
    unfold getLeaderboard, get, Redis.get in Hfirst.
    assert (backed (first :: earlier) next
            ∧ ∃ source, source ∈ first :: earlier
                        ∧ instant first < instant source + 60000
                        ∧ CacheManager.calculateLeaderboard (database source) (answer first))
      as [Hnext Hanswer].
    { assert (CacheManager.calculateLeaderboard (database first) (answer first)
              ∧ next = set store "leaderboard:top10" (answer first) 60 (instant first) →
              backed (first :: earlier) next
              ∧ ∃ source, source ∈ first :: earlier
                          ∧ instant first < instant source + 60000
                          ∧ CacheManager.calculateLeaderboard (database source) (answer first))
        as Hmiss.
      { intros [Hcalc ->]. split.
        - intros value' deadline'. unfold set, Redis.setex.
          rewrite lookup_insert_eq. intros [= <- <-].
          exists first. split; [apply elem_of_cons; by left|]. split; [reflexivity|done].
        - exists first. split; [apply elem_of_cons; by left|]. split; [lia|done]. }
      destruct (store !! "leaderboard:top10") as [[value deadline]|] eqn:Hkey; [|by apply Hmiss].
      destruct (Redis.alive (instant first) deadline) eqn:Halive; [|by apply Hmiss].
      destruct Hfirst as [-> ->].
      destruct (Hbacked _ _ Hkey) as (source & Hsource & -> & Hcalc).
      split.
      - intros value' deadline' Hkey'.
        destruct (Hbacked _ _ Hkey') as (source' & ? & ? & ?).
        exists source'. split; [apply elem_of_cons; by right|done].
      - exists source. split; [apply elem_of_cons; by right|]. split; [|done].
        unfold Redis.alive in Halive. by apply Z.ltb_lt in Halive. }
    destruct i as [|i]; simpl in Hcall.
    + injection Hcall as <-.
      destruct Hanswer as (source & Hsource & ? & ?).
      exists source. split_and!; try done.
      apply elem_of_cons in Hsource as [->|Hsource]; [|by left].
      right. exists 0%nat. done.
    + destruct (IH _ _ _ Hnext Hrest i call Hcall) as (source & Hsource & ? & ?).
      exists source. split_and!; try done.
      destruct Hsource as [Hsource|(j & Hle & Hj)].
      * apply elem_of_cons in Hsource as [->|Hsource]; [|by left].
        right. exists 0%nat. split; [lia|done].
      * right. exists (S j). split; [lia|done].
Qed.

(** X14. A leaderboard answer is at most 60 seconds old. Start with
    nothing under [leaderboard:top10] and let [getLeaderboard] be its
    only writer: every answer in a sequence of calls is an answer of
    the leaderboard query on the database as it was at that call or at
    an earlier call of the sequence, one whose instant is less than
    60000 milliseconds back; what the database has become since that
    call is not seen. *)
Theorem getLeaderboard_staleness store calls store' :
  store !! "leaderboard:top10" = None →
  serve store calls store' →
  ∀ i call, calls !! i = Some call →
    ∃ j source, (j ≤ i)%nat ∧ calls !! j = Some source
                ∧ instant call < instant source + 60000
                ∧ CacheManager.calculateLeaderboard (database source) (answer call).
Proof.
  intros Hnone Hserve i call Hcall.
  destruct (serve_backed calls [] store store') with (i := i) (call := call)
    as (source & [Hsource|(j & Hle & Hj)] & Hfresh & Hcalc); try done.
  - intros value deadline Hkey. by rewrite Hnone in Hkey.
  - by apply elem_of_nil in Hsource.
  - by exists j, source.
Qed.

End cached.

(** ** Sessions *)

Section sessions.
Context `{AuthService.Environment}.
Import AuthService AuthMiddleware.

Lemma perform_closed (store : Store) call session :
  opens session call = false →
  sessions store !! session = None →
  sessions (perform store call) !! session = None.
Proof.
  intros Hopens Hnone. destruct call as [name password drawn now|closed user]; simpl in *.
  - apply bool_decide_eq_false in Hopens. unfold login.
    destruct (Users store !! name) as [user|]; [|done].
    destruct (bcrypt_compare password (User.passwordHash user)); simpl; [|done].
    unfold Redis.setex. by rewrite lookup_insert_ne.
  - destruct (decide (closed = session)) as [->|Hother].
    + apply lookup_delete_eq.
    + by rewrite lookup_delete_ne.
Qed.

Lemma foldl_perform_closed calls : ∀ (store : Store) session,
  Forall (fun call => opens session call = false) calls →
  sessions store !! session = None →
  sessions (foldl perform store calls) !! session = None.
Proof.
  induction calls as [|call calls IH]; intros store session Hcalls Hnone; [done|].
  apply Forall_cons in Hcalls as [Hcall Hcalls]. simpl.
  by apply IH, perform_closed.
Qed.

Lemma validateToken_Returned (store : Store) token now payload :
  validateToken store token now = Returned payload ↔
  jwt_verify token JWT_SECRET now = Some payload
  ∧ ∃ session, Redis.get (sessions store) (sessionId payload) now = Some session ∧ session ≠ "".
Proof.
  unfold validateToken. destruct (jwt_verify token JWT_SECRET now) as [decoded|].
  - destruct (Redis.get (sessions store) (sessionId decoded) now) as [session|] eqn:Hsession.
    + case_bool_decide as Hempty.
      * split; [done|]. intros ([= <-] & stored & Hstored & Hfilled).
        rewrite Hsession in Hstored. injection Hstored as <-. done.
      * split.
        -- intros [= <-]. split; [done|]. by exists session.
        -- by intros ([= <-] & _).
    + split; [done|]. intros ([= <-] & stored & Hstored & _).
      rewrite Hsession in Hstored. done.
  - split; [done|]. by intros [? _].
Qed.

Lemma prefix_app (p text : string) :
  String.prefix p text = true ↔ ∃ rest, text = (p ++ rest)%string.
Proof.
  revert text. induction p as [|a p IH]; intros [|b text]; simpl.
  - split; [by exists ""|done].
  - split; [by eexists|done].
  - split; [done|]. by intros [rest ?].
  - destruct (Ascii.ascii_dec a b) as [->|Hne].
    + rewrite IH. split; intros [rest Hrest]; exists rest; [by rewrite Hrest|].
      by injection Hrest.
    + split; [done|]. intros [rest [= ? ?]]. done.
Qed.

Lemma substring_all (text : string) : String.substring 0 (String.length text) text = text.
Proof. induction text as [|a text IH]; simpl; by rewrite ?IH. Qed.

Lemma substring_app (p rest : string) :
  String.substring (String.length p) (String.length (p ++ rest) - String.length p) (p ++ rest)
  = rest.
Proof.
  induction p as [|a p IH]; simpl.
  - rewrite Nat.sub_0_r. apply substring_all.
  - apply IH.
Qed.

(** X15. Logging out revokes the session, whoever is named as its
    user. After [logout] of a session, and after whatever logins and
    logouts follow as long as no login draws the same session id
    again, no token of that session is accepted at any time:
    [validateToken] and the middleware return no payload of the
    session, and [refreshToken] fails for every token whose payload
    names it. *)
Theorem logout_revokes (store : Store) session user calls token header now :
  Forall (fun call => opens session call = false) calls →
  let store' := foldl perform (logout store session user) calls in
  (∀ payload, validateToken store' token now = Returned payload → sessionId payload ≠ session)
  ∧ (∀ payload, jwt_verify token JWT_REFRESH_SECRET now = Some payload →
       sessionId payload = session → ∃ failure, refreshToken store' token now = Failed failure)
  ∧ (∀ payload, authenticate store' header now = Next payload → sessionId payload ≠ session).
Proof.
  intros Hcalls store'.
  assert (sessions store' !! session = None) as Hclosed.
  { apply foldl_perform_closed; [done|]. apply lookup_delete_eq. }
  assert (∀ text payload, validateToken store' text now = Returned payload →
                          sessionId payload ≠ session) as Hvalidate.
  { intros text payload Hreturned Hsame.
    apply validateToken_Returned in Hreturned as (_ & stored & Hstored & _).
    unfold Redis.get in Hstored. rewrite Hsame, Hclosed in Hstored. done. }
  split_and!.
  - apply Hvalidate.
  - intros payload Hverify Hsame. unfold refreshToken. rewrite Hverify.
    case_bool_decide; [by eexists|].
    unfold Redis.get. rewrite Hsame, Hclosed.
    rewrite bool_decide_eq_true_2 by done. by eexists.
  - intros payload. unfold authenticate.
    destruct header as [authHeader|]; [|done].
    destruct (String.prefix "Bearer " authHeader); [|done]. cbn [negb].
    destruct (validateToken store' _ now) as [returned|failure] eqn:Hreturned; [|done].
    intros [= <-]. by apply Hvalidate in Hreturned.
Qed.

(** X16. A login opens a session of seven days. After a successful
    [login] that drew a session id, and until the store is written
    again: a token that verifies to a payload of this session is
    accepted by [validateToken] exactly before 604800000 milliseconds
    have passed since the login, and a refresh token of this session
    is accepted by [refreshToken] exactly when it is the refresh token
    this login returned and the same seven days have not passed. *)
Theorem login_session (store : Store) name password session now result store' :
  login store name password session now = (Returned result, store') →
  (∀ token now' payload,
      jwt_verify token JWT_SECRET now' = Some payload → sessionId payload = session →
      validateToken store' token now' = Returned payload ↔ now' < now + 604800000)
  ∧ (∀ token now' payload,
      jwt_verify token JWT_REFRESH_SECRET now' = Some payload → sessionId payload = session →
      type payload = Some "refresh" →
      (∃ refreshed, refreshToken store' token now' = Returned refreshed)
      ↔ token = refreshToken_ result ∧ now' < now + 604800000).
Proof.
  unfold login. destruct (Users store !! name) as [user|]; [|done].
  destruct (bcrypt_compare password (User.passwordHash user)); cbn [negb]; [|done].
  intros [= <- <-]. simpl.
  split.
  - intros token now' payload Hverify Hsame.
    rewrite validateToken_Returned. unfold Redis.get, Redis.setex. simpl.
    rewrite Hsame, lookup_insert_eq. unfold Redis.alive.
    destruct (now' <? now + 604800 * 1000) eqn:Hlive.
    + apply Z.ltb_lt in Hlive. split; [lia|]. intros _. split; [done|].
      eexists. split; [done|]. apply jwt_sign_not_empty.
    + apply Z.ltb_ge in Hlive. split; [|lia]. by intros (_ & stored & ? & _).
  - intros token now' payload Hverify Hsame Htype.
    unfold refreshToken. rewrite Hverify.
    rewrite bool_decide_eq_false_2 by (by intros Hne; apply Hne).
    unfold Redis.get, Redis.setex. simpl.
    rewrite Hsame, lookup_insert_eq. unfold Redis.alive.
    destruct (now' <? now + 604800 * 1000) eqn:Hlive.
    + apply Z.ltb_lt in Hlive. case_bool_decide as Hstored.
      * split; [by intros [? ?]|]. intros [-> _]. done.
      * split; [|by eexists]. intros _. split; [|lia].
        destruct (decide (Some (jwt_sign
                    {| userId := User.id user; username := User.username user;
                       sessionId := session; type := Some "refresh" |}
                    JWT_REFRESH_SECRET 604800 now) = Some token)) as [[= ->]|Hne]; done.
    + apply Z.ltb_ge in Hlive. rewrite bool_decide_eq_true_2 by done.
      split; [by intros [? ?]|]. lia.
Qed.

(** X17. The middleware hands on exactly the requests whose
    [Authorization] header is [Bearer ], with this case and the
    space, followed by a token that [validateToken] accepts, with the
    payload of that token as [req.user]; a request with no header or
    with another one is answered 401 [No token provided], and one with
    a token that is not accepted 401 [Invalid token], whatever made
    [validateToken] fail. *)
Theorem authenticate_spec (store : Store) header now :
  (∀ payload,
      authenticate store header now = Next payload
      ↔ ∃ token, header = Some ("Bearer " ++ token)%string
                 ∧ validateToken store token now = Returned payload)
  ∧ (authenticate store header now = Status401 "No token provided"
     ↔ ¬ ∃ token, header = Some ("Bearer " ++ token)%string)
  ∧ (authenticate store header now = Status401 "Invalid token"
     ↔ ∃ token failure, header = Some ("Bearer " ++ token)%string
                        ∧ validateToken store token now = Failed failure).
Proof.
  unfold authenticate. destruct header as [authHeader|].
  - destruct (String.prefix "Bearer " authHeader) eqn:Hprefix; cbn [negb].
    + apply prefix_app in Hprefix as [token ->].
      change 7%nat with (String.length "Bearer ").
      rewrite substring_app.
      destruct (validateToken store token now) as [returned|failure] eqn:Hreturned.
      * split_and!.
        -- intros payload. split.
           ++ intros [= <-]. by exists token.
           ++ intros (token' & [= Hsame] & Hreturned').
              apply String.app_inj in Hsame. subst token'.
              rewrite Hreturned in Hreturned'. by injection Hreturned' as <-.
        -- split; [done|]. intros Hnone. exfalso. apply Hnone. by exists token.
        -- split; [done|]. intros (token' & failure & [= Hsame] & Hfailed).
           apply String.app_inj in Hsame. subst token'.
           rewrite Hreturned in Hfailed. done.
      * split_and!.
        -- intros payload. split; [done|].
           intros (token' & [= Hsame] & Hreturned').
           apply String.app_inj in Hsame. subst token'.
           rewrite Hreturned in Hreturned'. done.
        -- split; [done|]. intros Hnone. exfalso. apply Hnone. by exists token.
        -- split; [|done]. intros _. by exists token, failure.
    + assert (¬ ∃ token, Some authHeader = Some ("Bearer " ++ token)%string) as Hnone.
      { intros [token [= ->]].
        assert (String.prefix "Bearer " ("Bearer " ++ token) = true) as Htrue
          by (apply prefix_app; by exists token).
        rewrite Htrue in Hprefix. done. }
      split_and!.
      * intros payload. split; [done|]. intros (token & Hheader & _).
        exfalso. apply Hnone. by exists token.
      * done.
      * split; [done|]. intros (token & failure & Hheader & _).
        exfalso. apply Hnone. by exists token.
  - split_and!.
    + intros payload. split; [done|]. by intros (? & ? & _).
    + split; [|done]. intros _ [? ?]. done.
    + split; [done|]. by intros (? & ? & ? & _).
Qed.

End sessions.

(** ** Sockets *)

Section sockets.
Context `{AuthService.Environment} {L : Type}.
Import AuthService WebSocketService SocketEvents.

(** X18. A socket that authenticates again as another user stays
    listed under the first. When a socket passes [auth] with a token
    of one user and then with a token of another, it is in the room of
    both users, and its disconnection removes it from the connections
    of the second user only: it remains listed under the first, whose
    entry therefore never goes. *)
Theorem reauthentication_keeps_entry (store1 store2 : Store) connectedUsers (socket : Socket L)
    token1 now1 payload1 (top1 : L) token2 now2 payload2 (top2 : L) :
  validateToken store1 token1 now1 = Returned payload1 →
  validateToken store2 token2 now2 = Returned payload2 →
  AuthService.userId payload1 ≠ AuthService.userId payload2 →
  let first := onAuth store1 (Some top1) connectedUsers socket token1 now1 in
  let second := onAuth store2 (Some top2) first.1 first.2 token2 now2 in
  let final := disconnect second.1 second.2 in
  ("user:" ++ AuthService.userId payload1)%string ∈ rooms second.2
  ∧ ("user:" ++ AuthService.userId payload2)%string ∈ rooms second.2
  ∧ SocketEvents.userId second.2 = Some (AuthService.userId payload2)
  ∧ listed final.1 (AuthService.userId payload1) (id socket).
Proof.
  intros Hfirst Hsecond Hother first second final.
  unfold final, second, first, onAuth. rewrite Hfirst. simpl. rewrite Hsecond. simpl.
  split_and!; try done; [set_solver|set_solver|].
  unfold disconnect, onDisconnect, listed. simpl.
  assert (∀ registry,
            (∃ connections, registry !! AuthService.userId payload1 = Some connections
                            ∧ id socket ∈ connections) →
            ∃ connections,
              removeUserConnection registry (AuthService.userId payload2) (id socket)
                !! AuthService.userId payload1 = Some connections
              ∧ id socket ∈ connections) as Hkept.
  { intros registry Hlisted. rewrite removeUserConnection_lookup.
    by rewrite decide_False by done. }
  assert (∃ connections,
            addUserConnection
              (addUserConnection connectedUsers (AuthService.userId payload1) (id socket))
              (AuthService.userId payload2) (id socket)
              !! AuthService.userId payload1 = Some connections
            ∧ id socket ∈ connections) as Hlisted.
  { rewrite addUserConnection_lookup. rewrite decide_False by done.
    rewrite addUserConnection_lookup. rewrite decide_True by done.
    eexists. split; [done|]. set_solver. }
  case_bool_decide; [done|]. by apply Hkept.
Qed.

(** X20. A socket joins a room only on a token that was accepted.
    Whatever [auth] events a socket sends, every room it is in
    afterwards is one it was in before, or the room [user:<id>] of a
    user or the room [leaderboard], joined at an event whose token
    [validateToken] accepted with a payload of that user: the updates
    sent to the room of a user reach no socket that has not presented
    a valid token of that user. *)
Theorem rooms_need_token connectedUsers (socket : Socket L) (events : list (AuthEvent L)) room :
  room ∈ rooms (authenticateAll connectedUsers socket events).2 →
  room ∈ rooms socket
  ∨ ∃ event payload,
      event ∈ events
      ∧ validateToken (store event) (token event) (instant event) = Returned payload
      ∧ (room = ("user:" ++ AuthService.userId payload)%string ∨ room = "leaderboard").
Proof.
  revert connectedUsers socket.
  induction events as [|event events IH]; intros connectedUsers socket; simpl; [by left|].
  destruct (connected socket) eqn:Hconnected; [|by left].
  unfold onAuth.
  destruct (validateToken (store event) (token event) (instant event)) as [payload|failure]
    eqn:Hvalidate.
  - destruct (top10 event) as [leaderboard|].
    + intros Hroom. apply IH in Hroom as [Hroom|(later & payload' & Hin & Hlater & Hjoined)].
      * simpl in Hroom. apply elem_of_union in Hroom as [Hroom|Hroom].
        -- apply elem_of_union in Hroom as [Hroom|Hroom]; [by left|].
           apply elem_of_singleton in Hroom. right. exists event, payload.
           split; [apply elem_of_cons; by left|]. split; [done|by left].
        -- apply elem_of_singleton in Hroom. right. exists event, payload.
           split; [apply elem_of_cons; by left|]. split; [done|by right].
      * right. exists later, payload'. split; [apply elem_of_cons; by right|done].
    + unfold disconnect. destruct events as [|next events]; simpl; intros Hroom;
        by apply elem_of_empty in Hroom.
  - unfold disconnect. destruct events as [|next events]; simpl; intros Hroom;
      by apply elem_of_empty in Hroom.
Qed.

End sockets.

(** ** The further properties on sample data *)

Section samples.
Import ScoreService.

Lemma removeUserConnection_addUserConnection_witness :
  let connectedUsers := WebSocketService.after [WebSocketService.Add "bob" "s9"] in
  WebSocketService.removeUserConnection
    (WebSocketService.addUserConnection connectedUsers "alice" "s2") "alice" "s2"
  = connectedUsers.
Proof.
  intros connectedUsers.
  apply removeUserConnection_addUserConnection.
  - apply (apply_trimmed ∅ (WebSocketService.Add "bob" "s9")).
    intros user connections Hlookup. by rewrite lookup_empty in Hlookup.
  - intros (connections & Hlookup & _). vm_compute in Hlookup. discriminate.
Defined.

Lemma spacing_enforced_witness :
  (AntiCheatService.validateScoreUpdate []
     (AntiCheatService.validateScoreUpdate [] Demo.emptyCache (Demo.attempt 50 2000) 2000).1.2
     (Demo.attempt 50 2500) 2500).1.1
  = false.
Proof.
  apply spacing_enforced.
  - vm_compute. reflexivity.
  - reflexivity.
  - lia.
  - vm_compute. reflexivity.
Defined.

Lemma accepted_in_a_row_witness :
  let first := {| Attempts.history := []; Attempts.request := Demo.attempt 50 2000;
                  Attempts.now := 2000 |} in
  let next := {| Attempts.history := []; Attempts.request := Demo.attempt 50 4000;
                 Attempts.now := 4000 |} in
  let cache' :=
    AntiCheatService.recordAction
      (AntiCheatService.recordAction Demo.emptyCache (Demo.attempt 50 2000) 2000)
      (Demo.attempt 50 4000) 4000 in
  AntiCheatService.getActionCount Demo.emptyCache "alice" 3600 2000 + Z.of_nat 2 ≤ 100
  ∧ AntiCheatService.getActionCount cache' "alice" 3600 3603000
    = AntiCheatService.getActionCount Demo.emptyCache "alice" 3600 2000 + Z.of_nat 2.
Proof.
  intros first next cache'.
  destruct (accepted_in_a_row "alice" first [next] Demo.emptyCache cache') as [Hcap Hcount].
  - intros attempt Hin. apply elem_of_cons in Hin as [->|Hin]; [reflexivity|].
    apply list_elem_of_singleton in Hin as ->. reflexivity.
  - simpl. lia.
  - vm_compute. reflexivity.
  - split; [exact Hcap|]. apply Hcount. simpl. lia.
Defined.

Lemma validateScoreUpdate_per_user_witness :
  (AntiCheatService.validateScoreUpdate [] Demo.emptyCache (Demo.attempt 50 2000) 2000).1.1
  = (AntiCheatService.validateScoreUpdate [Samples.bobRow]
       (AntiCheatService.recordAction Demo.emptyCache Samples.bobAttempt 1500)
       (Demo.attempt 50 2000) 2000).1.1.
Proof.
  apply validateScoreUpdate_per_user.
  - vm_compute. reflexivity.
  - vm_compute. reflexivity.
  - vm_compute. reflexivity.
Defined.

Lemma updateScore_counts_before_update_witness :
  (updateScore None Samples.world9 Samples.request9 "tok-9" 2000).1
  = Err (Error "User score not found")
  ∧ last_action (redis (updateScore None Samples.world9 Samples.request9 "tok-9" 2000).2) !! "carol"
    = Some (2000, Some (2000 + 3600000)).
Proof.
  split; [vm_compute; reflexivity|].
  apply (updateScore_counts_before_update None Samples.world9 Samples.request9 "tok-9" 2000
           Samples.action9).
  - vm_compute. reflexivity.
  - vm_compute. reflexivity.
Defined.

Lemma run_audited_witness :
  let calls := [Ledger.UpdateScore None (Demo.request 50 2000) "tok-1" 2000] in
  Audit.chained None
    (Attempts.rowsOf "alice" (ScoreHistories (db (Ledger.run Demo.world1 calls).1)))
    (Score.currentScore Samples.aliceAfter).
Proof.
  intros calls.
  apply (run_audited Demo.world1 calls).
  - intros user row _.
    change (ScoreHistories (db Demo.world1)) with (@nil ScoreHistory.t). exact I.
  - vm_compute. reflexivity.
Defined.

Lemma run_coherent_witness :
  let calls := [Ledger.UpdateScore None (Demo.request 50 2000) "tok-1" 2000] in
  ∃ row, Scores (db (Ledger.run Demo.world1 calls).1) !! "alice" = Some row
         ∧ Score.currentScore row = 150.
Proof.
  intros calls.
  apply (run_coherent Demo.world1 calls) with (deadline := Some 302000).
  - intros user score deadline Hlookup.
    change (user_score (redis Demo.world1)) with (∅ : gmap string (Z * option Z)) in Hlookup.
    by rewrite lookup_empty in Hlookup.
  - vm_compute. reflexivity.
Defined.

Lemma token_good_until_committed_witness :
  let calls :=
    [ Ledger.UpdateScore None (Demo.forgedRequest 50 2000) "tok-1" 2000;
      Ledger.UpdateScore (Some UpdateScoreRow) (Demo.request 50 2500) "tok-1" 2500 ] in
  ∃ action,
    validateActionToken None (db (Ledger.run Demo.world1 calls).1) "tok-1" "act-1" "alice" 3000
    = Ok action.
Proof.
  intros calls.
  apply (token_good_until_committed None Demo.world0 "alice" "quest" "act-1" "tok-1" 1000 calls
           {| it_actionId := "act-1"; it_token := "tok-1"; it_expiresAt := 301000 |}).
  - exact world0_ledger_ok.
  - vm_compute. reflexivity.
  - assert (ScoreHistories
              (db (Ledger.run
                     (generateActionToken None Demo.world0 "alice" "quest" "act-1" "tok-1" 1000).2
                     calls).1) = []) as -> by (vm_compute; reflexivity).
    apply not_elem_of_nil.
  - split_and!; [reflexivity|reflexivity|lia].
Defined.

Lemma getLeaderboard_staleness_witness :
  ∃ j source, (j ≤ 1)%nat ∧ Samples.served !! j = Some source
              ∧ 30000 < CacheStore.instant source + 60000
              ∧ CacheManager.calculateLeaderboard (CacheStore.database source) Samples.board3.
Proof.
  apply (getLeaderboard_staleness ∅ Samples.served
           (CacheStore.set ∅ "leaderboard:top10" Samples.board3 60 1000)
           (lookup_empty _)) with (i := 1%nat)
           (call := {| CacheStore.database := db Demo.world0; CacheStore.instant := 30000;
                       CacheStore.answer := Samples.board3 |}); [|reflexivity].
  exists (CacheStore.set ∅ "leaderboard:top10" Samples.board3 60 1000). split.
  - split; [|reflexivity]. exists Samples.board3. split_and!.
    + apply (bool_decide_unpack _). vm_compute. exact I.
    + repeat constructor; unfold CacheManager.byScoreDesc; simpl; lia.
    + reflexivity.
  - exists (CacheStore.set ∅ "leaderboard:top10" Samples.board3 60 1000). split; [|reflexivity].
    split; reflexivity.
Defined.

Lemma logout_revokes_witness :
  let store' :=
    foldl AuthService.perform (AuthService.logout Samples.store1 "s-1" "u-1")
      [AuthService.Login "bob" "pw-2" "s-2" 2000] in
  ∃ failure, AuthService.refreshToken store' "jwt:refresh-secret:s-1" 3000
             = AuthService.Failed failure.
Proof.
  intros store'.
  apply (logout_revokes Samples.store1 "s-1" "u-1" [AuthService.Login "bob" "pw-2" "s-2" 2000]
           "jwt:refresh-secret:s-1" None 3000)
    with (payload := Samples.payloadOf "u-1" "alice" "s-1" (Some "refresh")).
  - repeat constructor.
  - vm_compute. reflexivity.
  - reflexivity.
Defined.

Lemma login_session_witness :
  AuthService.validateToken Samples.store1 "jwt:access-secret:s-1" 5000
  = AuthService.Returned (Samples.payloadOf "u-1" "alice" "s-1" None).
Proof.
  destruct (login_session Samples.store0 "alice" "pw-1" "s-1" 1000 Samples.tokens1 Samples.store1)
    as [Hvalidate _].
  - vm_compute. reflexivity.
  - apply Hvalidate; [vm_compute; reflexivity|reflexivity|lia].
Defined.

Lemma reauthentication_keeps_entry_witness :
  let first :=
    SocketEvents.onAuth Samples.store2 (Some []) ∅ Samples.socket1 "jwt:access-secret:s-1" 3000 in
  let second :=
    SocketEvents.onAuth Samples.store2 (Some []) first.1 first.2 "jwt:access-secret:s-2" 4000 in
  SocketEvents.userId second.2 = Some "u-2"
  ∧ WebSocketService.listed (SocketEvents.disconnect second.1 second.2).1 "u-1" "sock-1".
Proof.
  intros first second.
  destruct (reauthentication_keeps_entry Samples.store2 Samples.store2 ∅ Samples.socket1
              "jwt:access-secret:s-1" 3000 (Samples.payloadOf "u-1" "alice" "s-1" None) []
              "jwt:access-secret:s-2" 4000 (Samples.payloadOf "u-2" "bob" "s-2" None) [])
    as (_ & _ & Huser & Hlisted).
  - vm_compute. reflexivity.
  - vm_compute. reflexivity.
  - discriminate.
  - split; [exact Huser|exact Hlisted].
Defined.

Lemma rooms_need_token_witness :
  let event :=
    SocketEvents.mkAuthEvent Samples.store2 (Some ([] : list string))
      "jwt:access-secret:s-1" 3000 in
  "user:u-1" ∈ SocketEvents.rooms Samples.socket1
  ∨ ∃ event' payload,
      event' ∈ [event]
      ∧ AuthService.validateToken (SocketEvents.store event') (SocketEvents.token event')
          (SocketEvents.instant event') = AuthService.Returned payload
      ∧ ("user:u-1" = ("user:" ++ AuthService.userId payload)%string
         ∨ "user:u-1" = "leaderboard").
Proof.
  intros event.
  apply (rooms_need_token ∅ Samples.socket1 [event] "user:u-1").
  vm_compute. reflexivity.
Defined.


End samples.
